(** * WinningJS: the observable-vector list data adapter and the flyout component

    A shallow embedding of [lib/ObservableVectorDataSource.js] and of the
    flyout component exercised by [test/ui_components.coffee].

    Conventions of the embedding.
    - JavaScript values form one universe [V] with the two distinguished
      values [undefined] and [null]; vector elements, item data and keys all
      live in it, as they do in the source.
    - Indices and counts are JavaScript numbers holding integers; they are
      modelled by [Z], on which [Math.max], [Math.min], [+], [-], [>=] and
      [===] are exact.
    - The adapter is stateful: it holds a reference to the observable vector,
      a (possibly unset) notification handler, and it queues callbacks with
      [setImmediate].  All of this lives in a [World] that is threaded
      through a small state-and-exception monad.
    - The notification handler is an external collaborator; a call to one of
      its methods is recorded in the world's call log and has no other
      effect.  The key selector and the mapping are pure, total functions on
      values.
    - The source of the flyout component is not part of the sources at hand;
      its model follows the specification and is marked as such. *)

From Stdlib Require Import ZArith Lia.
From stdpp Require Import base option list list_numbers strings.

Local Open Scope Z_scope.

(** ** JavaScript values *)

Class JsValues (V : Type) := {
  undefined : V;
  null : V
}.

(** ** WinJS and WinRT data types used by the adapter *)

(** [WinJS.UI.FetchError]. *)
Inductive FetchError := noResponse | doesNotExist.

(** [new WinJS.ErrorFromName(name)]. *)
Inductive WinJSError := ErrorFromName (name : FetchError).

(** A settled [WinJS.Promise]: [WinJS.Promise.wrap] gives a fulfilled one,
    [WinJS.Promise.wrapError] a rejected one. *)
Inductive Promise (A : Type) :=
| Fulfilled (value : A)
| Rejected (error : WinJSError).
Arguments Fulfilled {A} value.
Arguments Rejected {A} error.

Definition Promise_wrap {A : Type} (value : A) : Promise A := Fulfilled value.
Definition Promise_wrapError {A : Type} (error : WinJSError) : Promise A :=
  Rejected error.

(** [Windows.Foundation.Collections.CollectionChange]. *)
Inductive CollectionChange := reset | itemInserted | itemRemoved | itemChanged.

(** [IVectorChangedEventArgs]: the argument of a ["vectorchanged"] event. *)
Record IVectorChangedEventArgs := {
  collectionChange : CollectionChange;
  index : Z
}.

(** The callbacks the adapter hands to [setImmediate], defunctionalised: the
    closure returned by [makeCollectionChangeHandler(collectionChange, index)]
    and the anonymous function of [setNotificationHandler]. *)
Inductive Callback :=
| makeCollectionChangeHandler (collectionChange : CollectionChange) (index : Z)
| replayExistingItems.

(** Exceptions a callback can end with: a method call on an unset
    notification handler. *)
Inductive JsException := TypeError.

Section ObservableVectorDataSource.

Context {V : Type} `{JsValues V}.
(** Identities of notification handler objects. *)
Context {Handler : Type}.

(** [IItem]. *)
Record IItem := {
  data : V;
  key : V
}.

(** [IFetchResult]. *)
Record IFetchResult := {
  absoluteIndex : Z;
  atEnd : bool;
  atStart : bool;
  items : list IItem;
  offset : Z;
  totalCount : Z
}.

(** One method call on an [IListDataNotificationHandler]. *)
Inductive HandlerCall :=
| reload
| inserted (item : IItem) (previousKey nextKey : V) (index : Z)
| removed (key : V) (index : Z)
| changed (item : IItem)
| beginNotifications
| endNotifications.

(** ** The world the adapter runs in *)

Record World := {
  (** contents of the observable vector object [that._observableVector] *)
  _observableVector : list V;
  (** [that._notificationHandler]; [None] while the field is unset *)
  _notificationHandler : option Handler;
  (** callbacks queued by [setImmediate] and not yet run, oldest first *)
  immediates : list Callback;
  (** method calls received by notification handlers so far, oldest first *)
  calls : list (Handler * HandlerCall)
}.

(** The result of running a piece of adapter code. *)
Inductive Completion (A : Type) :=
| Normal (value : A) (w : World)
| Throw (exception : JsException) (w : World).
Arguments Normal {A} value w.
Arguments Throw {A} exception w.

Definition world_of {A : Type} (c : Completion A) : World :=
  match c with
  | Normal _ w => w
  | Throw _ w => w
  end.

Definition Js (A : Type) : Type := World -> Completion A.

Definition ret {A : Type} (a : A) : Js A := fun w => Normal a w.

Definition bind {A B : Type} (m : Js A) (k : A -> Js B) : Js B :=
  fun w =>
    match m w with
    | Normal a w' => k a w'
    | Throw e w' => Throw e w'
    end.

Notation "'let*' x := m 'in' k" := (bind m (fun x => k))
  (at level 10, x name, m at level 100, k at level 200).
Notation "m >> k" := (bind m (fun _ => k))
  (at level 100, k at level 200, right associativity).

(** *** Primitive effects *)

(** [vec[index]]: [undefined] outside the bounds of the vector. *)
Definition vector_at (vec : list V) (index : Z) : V :=
  if decide (0 <= index) then default undefined (vec !! Z.to_nat index)
  else undefined.

(** [that._observableVector[index]] *)
Definition observableVector_at (index : Z) : Js V :=
  fun w => Normal (vector_at (_observableVector w) index) w.

(** [that._observableVector.length] *)
Definition observableVector_length : Js Z :=
  fun w => Normal (Z.of_nat (length (_observableVector w))) w.

(** reads [that._notificationHandler] *)
Definition get_notificationHandler : Js (option Handler) :=
  fun w => Normal (_notificationHandler w) w.

(** [this._notificationHandler = notificationHandler] *)
Definition put_notificationHandler (h : Handler) : Js unit :=
  fun w => Normal tt {| _observableVector := _observableVector w;
                        _notificationHandler := Some h;
                        immediates := immediates w;
                        calls := calls w |}.

(** [setImmediate(callback)] *)
Definition setImmediate (callback : Callback) : Js unit :=
  fun w => Normal tt {| _observableVector := _observableVector w;
                        _notificationHandler := _notificationHandler w;
                        immediates := immediates w ++ [callback];
                        calls := calls w |}.

(** [that._notificationHandler.method(args)]: a [TypeError] when the field is
    unset, otherwise the handler receives the call. *)
Definition notify (call : HandlerCall) : Js unit :=
  fun w =>
    match _notificationHandler w with
    | None => Throw TypeError w
    | Some h => Normal tt {| _observableVector := _observableVector w;
                             _notificationHandler := _notificationHandler w;
                             immediates := immediates w;
                             calls := calls w ++ [(h, call)] |}
    end.

(** [array.map(f)] and [array.forEach(f)] for an effectful [f]. *)
Fixpoint mapJs {A B : Type} (f : A -> Js B) (l : list A) : Js (list B) :=
  match l with
  | [] => ret []
  | a :: l' => let* b := f a in let* bs := mapJs f l' in ret (b :: bs)
  end.

Fixpoint forEachJs {A : Type} (f : A -> Js unit) (l : list A) : Js unit :=
  match l with
  | [] => ret tt
  | a :: l' => f a >> forEachJs f l'
  end.

(** [_.range(start, stop)] of underscore: the integers from [start] up to but
    not including [stop]; empty when [stop = start].  For [stop < start] the
    list is empty as well, which is the rule of underscore up to 1.8.3; later
    versions count down there.  The adapter asks for a reversed range only
    when the requested window itself is reversed, and the properties of the
    items below are stated for windows that are not. *)
Definition range (start stop : Z) : list Z := seqZ start (Z.max (stop - start) 0).

(** ** The adapter *)

(** The constructor arguments other than the vector. *)
Variable keySelector : V -> V.
Variable mapping : option (V -> V).

(** [that._mapping = mapping || function (x) { return x; }] *)
Definition _mapping : V -> V :=
  match mapping with
  | Some f => f
  | None => fun x => x
  end.

Definition _itemFromIndex (index : Z) : Js IItem :=
  let* element := observableVector_at index in
  ret {| data := _mapping element; key := keySelector element |}.

Definition _keyFromIndex (index : Z) : Js V :=
  let* element := observableVector_at index in
  ret (keySelector element).

Definition _notifyInsertedAtIndex (index : Z) : Js unit :=
  let* previousKey := (if index =? 0 then ret null
                       else _keyFromIndex (index - 1)) in
  let* length := observableVector_length in
  let* nextKey := (if index <? length - 1 then _keyFromIndex (index + 1)
                   else ret null) in
  let* item := _itemFromIndex index in
  notify (inserted item previousKey nextKey index).

Definition getCount : Js (Promise Z) :=
  let* length := observableVector_length in
  ret (Promise_wrap length).

Definition itemsFromIndex (index countBefore countAfter : Z)
  : Js (Promise IFetchResult) :=
  let* length := observableVector_length in
  if index >=? length then
    ret (Promise_wrapError (ErrorFromName doesNotExist))
  else
    let start := Z.max (index - countBefore) 0 in
    let end_ := Z.min (index + countAfter) (length - 1) in
    let* items := mapJs _itemFromIndex (range start (end_ + 1)) in
    ret (Promise_wrap {| absoluteIndex := index;
                         atEnd := end_ =? length - 1;
                         atStart := start =? 0;
                         items := items;
                         offset := index - start;
                         totalCount := length |}).

Definition itemsFromStart (count : Z) : Js (Promise IFetchResult) :=
  itemsFromIndex 0 0 (count - 1).

Definition itemsFromEnd (count : Z) : Js (Promise IFetchResult) :=
  let* length := observableVector_length in
  itemsFromIndex (length - 1) (count - 1) 0.

(** The anonymous function passed to [setImmediate] by
    [setNotificationHandler]. *)
Definition replay : Js unit :=
  let* length := observableVector_length in
  if length >? 0 then
    notify beginNotifications >>
    forEachJs _notifyInsertedAtIndex (range 0 length) >>
    notify endNotifications
  else ret tt.

Definition setNotificationHandler (h : Handler) : Js unit :=
  put_notificationHandler h >>
  setImmediate replayExistingItems.

(** The function returned by [makeCollectionChangeHandler]. *)
Definition collectionChangeHandler (cc : CollectionChange) (index : Z) : Js unit :=
  match cc with
  | reset => notify reload
  | itemInserted => _notifyInsertedAtIndex index
  | itemRemoved => notify (removed null index)
  | itemChanged => let* item := _itemFromIndex index in notify (changed item)
  end.

(** The ["vectorchanged"] listener registered by the constructor. *)
Definition vectorchanged (ev : IVectorChangedEventArgs) : Js unit :=
  let* h := get_notificationHandler in
  match h with
  | None => ret tt
  | Some _ =>
      setImmediate (makeCollectionChangeHandler (collectionChange ev) (index ev))
  end.

(** [new ObservableVectorListDataAdapter(observableVector, keySelector,
    mapping)]: the handler field is unset, nothing is queued, nothing has
    been called. *)
Definition ObservableVectorListDataAdapter (observableVector : list V) : World :=
  {| _observableVector := observableVector;
     _notificationHandler := None;
     immediates := [];
     calls := [] |}.

(** ** The host: the event loop and the owner of the vector *)

Definition run_callback (callback : Callback) : Js unit :=
  match callback with
  | makeCollectionChangeHandler cc index => collectionChangeHandler cc index
  | replayExistingItems => replay
  end.

(** One turn of the event loop: the oldest queued callback is taken off the
    queue and run to completion; an exception ends that callback only. *)
Definition tick (w : World) : World :=
  match immediates w with
  | [] => w
  | callback :: queue =>
      world_of (run_callback callback {| _observableVector := _observableVector w;
                                         _notificationHandler := _notificationHandler w;
                                         immediates := queue;
                                         calls := calls w |})
  end.

Fixpoint ticks (n : nat) (w : World) : World :=
  match n with
  | O => w
  | S n' => ticks n' (tick w)
  end.

(** A mutation of the observable vector by its owner: the contents become
    [vec'] and the vector raises ["vectorchanged"] with [ev], which runs the
    adapter's listener synchronously, inside the mutating call. *)
Definition host_mutation (vec' : list V) (ev : IVectorChangedEventArgs) : Js unit :=
  fun w => vectorchanged ev {| _observableVector := vec';
                               _notificationHandler := _notificationHandler w;
                               immediates := immediates w;
                               calls := calls w |}.

(** What the owner of the adapter and of the vector can do, one step at a
    time: mutate the vector, let the event loop take a turn, or attach a
    notification handler. *)
Inductive HostStep :=
| HostMutation (vec' : list V) (ev : IVectorChangedEventArgs)
| HostTick
| HostAttach (h : Handler).

Definition run_step (step : HostStep) (w : World) : World :=
  match step with
  | HostMutation vec' ev => world_of (host_mutation vec' ev w)
  | HostTick => tick w
  | HostAttach h => world_of (setNotificationHandler h w)
  end.

Definition run_steps (steps : list HostStep) (w : World) : World :=
  foldl (fun w step => run_step step w) w steps.

Definition is_tick (step : HostStep) : bool :=
  match step with
  | HostTick => true
  | _ => false
  end.

Definition is_attach (step : HostStep) : bool :=
  match step with
  | HostAttach _ => true
  | _ => false
  end.

(** Number of event-loop turns in a schedule. *)
Definition count_ticks (steps : list HostStep) : nat :=
  length (List.filter is_tick steps).

(** The schedule that performs the given mutations one after the other. *)
Definition mutations (ms : list (list V * IVectorChangedEventArgs)) : list HostStep :=
  (fun m => HostMutation m.1 m.2) <$> ms.

(** ** Specification-side vocabulary *)

(** The [{data, key}] pair of a vector element. *)
Definition item_of (element : V) : IItem :=
  {| data := _mapping element; key := keySelector element |}.

(** The world after the handler [h] has received [cs], in that order. *)
Definition add_calls (w : World) (h : Handler) (cs : list HandlerCall) : World :=
  {| _observableVector := _observableVector w;
     _notificationHandler := _notificationHandler w;
     immediates := immediates w;
     calls := calls w ++ ((fun c => (h, c)) <$> cs) |}.

(** The world with the contents of the vector replaced and nothing else. *)
Definition set_vector (vec' : list V) (w : World) : World :=
  {| _observableVector := vec';
     _notificationHandler := _notificationHandler w;
     immediates := immediates w;
     calls := calls w |}.

(** The world with the oldest queued callback taken off the queue. *)
Definition dequeue (w : World) : World :=
  {| _observableVector := _observableVector w;
     _notificationHandler := _notificationHandler w;
     immediates := tail (immediates w);
     calls := calls w |}.

(** Key of the neighbour before position [index]: [null] at the start. *)
Definition previous_key (vec : list V) (index : Z) : V :=
  if decide (index = 0) then null else keySelector (vector_at vec (index - 1)).

(** Key of the neighbour after position [index]: [null] at or past the last
    position. *)
Definition next_key (vec : list V) (index : Z) : V :=
  if decide (index >= Z.of_nat (length vec) - 1) then null
  else keySelector (vector_at vec (index + 1)).

(** The [inserted] call that describes position [index] of [vec]. *)
Definition inserted_call (vec : list V) (index : Z) : HandlerCall :=
  inserted (item_of (vector_at vec index))
           (previous_key vec index) (next_key vec index) index.

(** The replay of the contents [vec]: nothing for an empty vector, otherwise
    one [inserted] per position in ascending order between
    [beginNotifications] and [endNotifications]. *)
Definition replay_calls (vec : list V) : list HandlerCall :=
  match vec with
  | [] => []
  | _ :: _ =>
      beginNotifications
      :: (inserted_call vec <$> seqZ 0 (Z.of_nat (length vec)))
      ++ [endNotifications]
  end.

(** The one notification that translates a change event, given the contents
    of the vector when the translation runs. *)
Definition notification_of (vec : list V) (cc : CollectionChange) (index : Z)
  : HandlerCall :=
  match cc with
  | reset => reload
  | itemInserted => inserted_call vec index
  | itemRemoved => removed null index
  | itemChanged => changed (item_of (vector_at vec index))
  end.

(** The calls a queued callback makes when it runs on the contents [vec]. *)
Definition calls_of (vec : list V) (callback : Callback) : list HandlerCall :=
  match callback with
  | makeCollectionChangeHandler cc index => [notification_of vec cc index]
  | replayExistingItems => replay_calls vec
  end.

(** A piece of adapter code leaves the observable vector alone when the
    vector holds the same elements after it as before it, however it ends. *)
Definition leaves_vector_alone {A : Type} (m : Js A) : Prop :=
  forall w, _observableVector (world_of (m w)) = _observableVector w.

(** The callback a change event queues. *)
Definition callback_of (ev : IVectorChangedEventArgs) : Callback :=
  makeCollectionChangeHandler (collectionChange ev) (index ev).

(** First and last position of the window around [index]. *)
Definition window_start (index countBefore : Z) : Z :=
  Z.max 0 (index - countBefore).
Definition window_end (len index countAfter : Z) : Z :=
  Z.min (len - 1) (index + countAfter).

(** The window of the first [count] items, in the spec's words. *)
Definition first_items_window (vec : list V) (count : Z) : IFetchResult :=
  let len := Z.of_nat (length vec) in
  let n := Z.min count len in
  {| absoluteIndex := 0;
     atEnd := n =? len;
     atStart := true;
     items := item_of <$> take (Z.to_nat n) vec;
     offset := 0;
     totalCount := len |}.

(** The window of the last [count] items, in the spec's words. *)
Definition last_items_window (vec : list V) (count : Z) : IFetchResult :=
  let len := Z.of_nat (length vec) in
  let n := Z.min count len in
  {| absoluteIndex := len - 1;
     atEnd := true;
     atStart := n =? len;
     items := item_of <$> drop (Z.to_nat (len - n)) vec;
     offset := n - 1;
     totalCount := len |}.

(** The elements at the positions [first..last] of [vec], both included. *)
Definition vector_slice (vec : list V) (first last : Z) : list V :=
  take (Z.to_nat (last + 1 - first)) (drop (Z.to_nat first) vec).

(** The [inserted] call for the element [x] at position [i] of [vec], with
    the keys of its neighbours read from the list itself: [null] where there
    is no neighbour. *)
Definition linked_inserted (vec : list V) (i : nat) (x : V) : HandlerCall :=
  inserted (item_of x)
           (match i with
            | O => null
            | S j => from_option keySelector null (vec !! j)
            end)
           (from_option keySelector null (vec !! S i))
           (Z.of_nat i).

(** Number of [beginNotifications], respectively [endNotifications], calls
    in a call log. *)
Fixpoint count_begin (log : list (Handler * HandlerCall)) : nat :=
  match log with
  | [] => 0
  | (_, beginNotifications) :: log' => S (count_begin log')
  | _ :: log' => count_begin log'
  end.

Fixpoint count_end (log : list (Handler * HandlerCall)) : nat :=
  match log with
  | [] => 0
  | (_, endNotifications) :: log' => S (count_end log')
  | _ :: log' => count_end log'
  end.

End ObservableVectorDataSource.

Arguments IItem V : clear implicits.
Arguments IFetchResult V : clear implicits.
Arguments HandlerCall V : clear implicits.
Arguments World V Handler : clear implicits.
Arguments Completion V Handler A : clear implicits.
Arguments Normal {V Handler A} value w.
Arguments Throw {V Handler A} exception w.
Arguments Js V Handler A : clear implicits.

(** ** The flyout component *)

Module Flyout.

(** Modelled from the spec: the error of a [show] with no anchor; the source
    of [lib/ui/components] is not available, only its test. *)
Inductive ShowError := NoAnchorEstablished.

(** Modelled from the spec: how a call on a component can end; an asynchronous
    operation ends resolved or rejected, a synchronous failure is a throw. *)
Inductive Outcome :=
| Resolved
| RejectedWith (e : ShowError)
| ThrownSynchronously (e : ShowError).

Section Component.

(** Anchor elements. *)
Context {Anchor : Type}.

(** Modelled from the spec: the constructor options that reach the native
    control ([anchor], [placement], [alignment]); [lib/ui/components] is
    missing, the fields are those of section 4.2 of the spec and of the
    test. *)
Record Options := {
  opt_anchor : option Anchor;
  opt_placement : option string;
  opt_alignment : option string
}.

(** Modelled from the spec: the native control handle attached to the root
    element: its settable properties, the arguments of every [show] call it
    received, the number of [hide] calls and the names of the events listened
    to.  The control is the presenter's, which is missing as well. *)
Record WinControl := {
  wc_anchor : option Anchor;
  wc_placement : option string;
  wc_alignment : option string;
  show_calls : list (option Anchor);
  hide_calls : nat;
  listeners : list string
}.

(** Modelled from the spec: a component instance of the missing
    [lib/ui/components]: the mutable [anchor] property, the options it was
    built with, and its native control. *)
Record Component := {
  anchor : option Anchor;
  options : Options;
  winControl : WinControl
}.

(** Modelled from the spec: construction by the constructor produced by
    [createFlyoutConstructor], which is missing: the presenter yields a
    control with nothing set, the [anchor] property starts as the option. *)
Definition construct (opts : Options) : Component :=
  {| anchor := opt_anchor opts;
     options := opts;
     winControl := {| wc_anchor := None;
                      wc_placement := None;
                      wc_alignment := None;
                      show_calls := [];
                      hide_calls := 0;
                      listeners := [] |} |}.

(** Modelled from the spec: assignment to the [anchor] property of a
    component of the missing [lib/ui/components]. *)
Definition set_anchor (a : Anchor) (c : Component) : Component :=
  {| anchor := Some a; options := options c; winControl := winControl c |}.

(** Modelled from the spec: [process()] of the missing [lib/ui/components]:
    an established anchor and the placement and alignment options are
    propagated to the native control, and the [aftershow] and [afterhide]
    listeners are registered. *)
Definition process (c : Component) : Component :=
  let wc := winControl c in
  {| anchor := anchor c;
     options := options c;
     winControl :=
       {| wc_anchor := match anchor c with
                       | Some a => Some a
                       | None => wc_anchor wc
                       end;
          wc_placement := match opt_placement (options c) with
                          | Some p => Some p
                          | None => wc_placement wc
                          end;
          wc_alignment := match opt_alignment (options c) with
                          | Some p => Some p
                          | None => wc_alignment wc
                          end;
          show_calls := show_calls wc;
          hide_calls := hide_calls wc;
          listeners := listeners wc ++ ["aftershow"; "afterhide"]%string |} |}.

(** Modelled from the spec: whether an anchor has been established by the
    time [show(anchorArg)] is invoked: by the constructor option or a property
    assignment (both end in the [anchor] property) or by the argument. *)
Definition anchor_established (anchorArg : option Anchor) (c : Component) : bool :=
  match anchorArg, anchor c with
  | None, None => false
  | _, _ => true
  end.

(** Modelled from the spec: [show(anchorArg?)] of the missing
    [lib/ui/components]: it proxies to the native control's [show], and fails
    with a rejected asynchronous result, without reaching the control, when no
    anchor has been established. *)
Definition show (anchorArg : option Anchor) (c : Component) : Outcome * Component :=
  if anchor_established anchorArg c then
    let wc := winControl c in
    (Resolved,
     {| anchor := anchor c;
        options := options c;
        winControl := {| wc_anchor := wc_anchor wc;
                         wc_placement := wc_placement wc;
                         wc_alignment := wc_alignment wc;
                         show_calls := show_calls wc ++ [anchorArg];
                         hide_calls := hide_calls wc;
                         listeners := listeners wc |} |})
  else (RejectedWith NoAnchorEstablished, c).

(** Modelled from the spec: a component of the missing [lib/ui/components]
    after construction, property assignments, [process()], and further
    property assignments. *)
Definition processed_component (opts : Options) (before after : list Anchor)
  : Component :=
  foldl (fun c a => set_anchor a c)
        (process (foldl (fun c a => set_anchor a c) (construct opts) before))
        after.

End Component.

Arguments Options Anchor : clear implicits.
Arguments Component Anchor : clear implicits.

End Flyout.

(** ** Concrete values for examples *)

Inductive JsVal := JsUndefined | JsNull | JsNumber (n : Z).

#[export] Instance JsVal_values : JsValues JsVal :=
  {| undefined := JsUndefined; null := JsNull |}.

(** [function (x) { return x + 100; }] on numbers. *)
Definition example_keySelector (v : JsVal) : JsVal :=
  match v with
  | JsNumber n => JsNumber (n + 100)
  | _ => JsUndefined
  end.

Definition example_vector : list JsVal := [JsNumber 1; JsNumber 2; JsNumber 3].

(** A world with one attached handler, named [7]. *)
Definition example_world : World JsVal nat :=
  {| _observableVector := example_vector;
     _notificationHandler := Some 7%nat;
     immediates := [];
     calls := [] |}.

(** A freshly constructed adapter over [example_vector]. *)
Definition example_fresh_world : World JsVal nat :=
  ObservableVectorListDataAdapter example_vector.

(** [example_vector] after the insertion of [9] at position [1]. *)
Definition example_vector_inserted : list JsVal :=
  [JsNumber 1; JsNumber 9; JsNumber 2; JsNumber 3].

(** [example_vector] after the removal of position [1]. *)
Definition example_vector_removed : list JsVal := [JsNumber 1; JsNumber 3].

(** * Properties of the adapter *)

Section AdapterProperties.

Context {V : Type} `{JsValues V} {Handler : Type}.
Variable keySelector : V -> V.
Variable mapping : option (V -> V).

Implicit Types (w : World V Handler) (vec : list V) (h : Handler).

(** ** Reading the vector *)

Lemma vector_at_lookup vec (i : nat) (x : V) :
  vec !! i = Some x -> vector_at vec (Z.of_nat i) = x.
Proof.
  intros Hx. unfold vector_at.
  destruct (decide (0 <= Z.of_nat i)) as [_|Hneg]; [|lia].
  by rewrite Nat2Z.id, Hx.
Qed.

Lemma mapJs_itemFromIndex (l : list Z) w :
  mapJs (_itemFromIndex keySelector mapping) l w
  = Normal ((fun i => item_of keySelector mapping (vector_at (_observableVector w) i)) <$> l) w.
Proof.
  induction l as [|i l IH]; [reflexivity|].
  cbn [mapJs]. unfold bind at 1. cbn.
  unfold bind at 1. rewrite IH. reflexivity.
Qed.

(** Reading the positions [start, start + n) one by one yields the
    corresponding slice of the vector. *)
Lemma vector_at_seqZ vec (start n : Z) :
  0 <= start -> 0 <= n -> start + n <= Z.of_nat (length vec) ->
  vector_at vec <$> seqZ start n
  = take (Z.to_nat n) (drop (Z.to_nat start) vec).
Proof.
  intros Hs Hn Hlen. apply list_eq. intros j.
  rewrite list_lookup_fmap.
  destruct (decide (Z.of_nat j < n)) as [Hj|Hj].
  - rewrite lookup_seqZ_lt by done. cbn.
    rewrite lookup_take_lt by lia. rewrite lookup_drop.
    destruct (lookup_lt_is_Some_2 vec (Z.to_nat start + j)) as [x Hx]; [lia|].
    rewrite Hx. f_equal.
    replace (start + Z.of_nat j) with (Z.of_nat (Z.to_nat start + j)) by lia.
    by apply vector_at_lookup.
  - rewrite lookup_seqZ_ge by lia. cbn.
    by rewrite lookup_take_ge by lia.
Qed.

(** The code of [itemsFromIndex] below the bounds guard, as one equation. *)
Lemma itemsFromIndex_below_length w (index countBefore countAfter : Z) :
  index < Z.of_nat (length (_observableVector w)) ->
  itemsFromIndex keySelector mapping index countBefore countAfter w
  = Normal (Fulfilled
      {| absoluteIndex := index;
         atEnd := Z.min (index + countAfter) (Z.of_nat (length (_observableVector w)) - 1)
                  =? Z.of_nat (length (_observableVector w)) - 1;
         atStart := Z.max (index - countBefore) 0 =? 0;
         items := (fun i => item_of keySelector mapping (vector_at (_observableVector w) i))
                  <$> range (Z.max (index - countBefore) 0)
                            (Z.min (index + countAfter)
                                   (Z.of_nat (length (_observableVector w)) - 1) + 1);
         offset := index - Z.max (index - countBefore) 0;
         totalCount := Z.of_nat (length (_observableVector w)) |}) w.
Proof.
  intros Hlt. unfold itemsFromIndex, bind, observableVector_length.
  destruct (Z.geb_spec index (Z.of_nat (length (_observableVector w)))) as [Hge|_]; [lia|].
  rewrite mapJs_itemFromIndex. reflexivity.
Qed.

Lemma itemsFromIndex_at_or_above_length w (index countBefore countAfter : Z) :
  Z.of_nat (length (_observableVector w)) <= index ->
  itemsFromIndex keySelector mapping index countBefore countAfter w
  = Normal (Rejected (ErrorFromName doesNotExist)) w.
Proof.
  intros Hge. unfold itemsFromIndex, bind, observableVector_length.
  destruct (Z.geb_spec index (Z.of_nat (length (_observableVector w)))) as [_|Hlt]; [|lia].
  reflexivity.
Qed.

(** C1: for an in-bounds index and non-negative counts, [itemsFromIndex]
    succeeds, leaves the world as it was, and returns the fetch result whose
    items are the [{data, key}] pairs of the vector positions [start..end]
    with [start = max 0 (index - countBefore)] and
    [end = min (len - 1) (index + countAfter)]; [absoluteIndex] is [index],
    [offset] is [index - start], [atStart] holds iff [start = 0], [atEnd]
    holds iff [end = len - 1], [totalCount] is [len], and the item at
    position [offset] is the pair of [vector[index]], so its key is
    [keySelector(vector[index])]. *)
Theorem itemsFromIndex_in_bounds w (index countBefore countAfter : Z) :
  0 <= index < Z.of_nat (length (_observableVector w)) ->
  0 <= countBefore ->
  0 <= countAfter ->
  exists (r : IFetchResult V) (element : V),
    itemsFromIndex keySelector mapping index countBefore countAfter w
      = Normal (Fulfilled r) w
    /\ items r
       = item_of keySelector mapping
         <$> take (Z.to_nat (window_end (Z.of_nat (length (_observableVector w))) index countAfter
                             - window_start index countBefore + 1))
                  (drop (Z.to_nat (window_start index countBefore)) (_observableVector w))
    /\ Z.of_nat (length (items r))
       = window_end (Z.of_nat (length (_observableVector w))) index countAfter
         - window_start index countBefore + 1
    /\ absoluteIndex r = index
    /\ offset r = index - window_start index countBefore
    /\ (atStart r = true <-> window_start index countBefore = 0)
    /\ (atEnd r = true
        <-> window_end (Z.of_nat (length (_observableVector w))) index countAfter
            = Z.of_nat (length (_observableVector w)) - 1)
    /\ totalCount r = Z.of_nat (length (_observableVector w))
    /\ _observableVector w !! Z.to_nat index = Some element
    /\ items r !! Z.to_nat (offset r) = Some (item_of keySelector mapping element)
    /\ (forall it, items r !! Z.to_nat (offset r) = Some it ->
                   key it = keySelector (vector_at (_observableVector w) index)).
Proof.
  intros Hidx Hcb Hca.
  set (len := Z.of_nat (length (_observableVector w))) in *.
  destruct (lookup_lt_is_Some_2 (_observableVector w) (Z.to_nat index)) as [element Hel]; [lia|].
  eexists _, element. split; [apply itemsFromIndex_below_length; lia|]. cbn.
  fold len. unfold window_start, window_end, range.
  rewrite (Z.max_comm (index - countBefore) 0), (Z.min_comm (index + countAfter) (len - 1)).
  set (start := Z.max 0 (index - countBefore)).
  set (end_ := Z.min (len - 1) (index + countAfter)).
  assert (Hstart : 0 <= start <= index) by lia.
  assert (Hend : index <= end_ <= len - 1) by lia.
  replace (Z.max (end_ + 1 - start) 0) with (end_ - start + 1) by lia.
  assert (Hitems :
    (fun i => item_of keySelector mapping (vector_at (_observableVector w) i))
      <$> seqZ start (end_ - start + 1)
    = item_of keySelector mapping
      <$> take (Z.to_nat (end_ - start + 1)) (drop (Z.to_nat start) (_observableVector w))).
  { rewrite <- vector_at_seqZ by (unfold len in *; lia).
    by rewrite <- list_fmap_compose. }
  assert (Hat : vector_at (_observableVector w) index = element).
  { rewrite <- (Z2Nat.id index) by lia. by apply vector_at_lookup. }
  assert (Hoff :
    (item_of keySelector mapping
      <$> take (Z.to_nat (end_ - start + 1)) (drop (Z.to_nat start) (_observableVector w)))
      !! Z.to_nat (index - start)
    = Some (item_of keySelector mapping element)).
  { rewrite list_lookup_fmap, lookup_take_lt by lia. rewrite lookup_drop.
    replace (Z.to_nat start + Z.to_nat (index - start))%nat with (Z.to_nat index) by lia.
    by rewrite Hel. }
  rewrite Hitems. repeat split; try done.
  - rewrite length_fmap, length_take, length_drop. unfold len in *. lia.
  - intros Hb. by apply Z.eqb_eq.
  - intros ->. reflexivity.
  - intros Hb. by apply Z.eqb_eq.
  - intros ->. apply Z.eqb_refl.
  - intros it. rewrite Hoff. intros [= <-]. cbn. by rewrite Hat.
Qed.

(** The one guard of [itemsFromIndex] is an upper bound: the call is rejected
    with the "does not exist" error exactly when [index >= length], and
    fulfilled with a fetch result exactly when [index < length]. *)
Theorem itemsFromIndex_rejected_iff w (index countBefore countAfter : Z) :
  (itemsFromIndex keySelector mapping index countBefore countAfter w
     = Normal (Rejected (ErrorFromName doesNotExist)) w
   <-> Z.of_nat (length (_observableVector w)) <= index)
  /\ ((exists r : IFetchResult V,
         itemsFromIndex keySelector mapping index countBefore countAfter w
         = Normal (Fulfilled r) w)
      <-> index < Z.of_nat (length (_observableVector w))).
Proof.
  destruct (Z.le_gt_cases (Z.of_nat (length (_observableVector w))) index) as [Hge|Hlt].
  - pose proof (itemsFromIndex_at_or_above_length w index countBefore countAfter Hge)
      as Hrej.
    split; split; try done; try lia.
    intros [r Hr]. rewrite Hrej in Hr. discriminate.
  - pose proof (itemsFromIndex_below_length w index countBefore countAfter Hlt)
      as Hful.
    split; split; try done; try lia.
    + rewrite Hful. discriminate.
    + intros _. eexists. exact Hful.
Qed.

(** The items read over [range start stop] are the pairs of the slice
    [start, stop) of the vector. *)
Lemma items_of_range vec (start stop : Z) :
  0 <= start -> stop <= Z.of_nat (length vec) ->
  (fun i => item_of keySelector mapping (vector_at vec i)) <$> range start stop
  = item_of keySelector mapping
    <$> take (Z.to_nat (stop - start)) (drop (Z.to_nat start) vec).
Proof.
  intros Hs Hstop. unfold range.
  destruct (Z.le_gt_cases stop start) as [Hle|Hgt].
  - rewrite seqZ_nil by lia.
    replace (Z.to_nat (stop - start)) with 0%nat by lia. reflexivity.
  - replace (Z.max (stop - start) 0) with (stop - start) by lia.
    rewrite <- vector_at_seqZ by lia. by rewrite <- list_fmap_compose.
Qed.

(** C7: [itemsFromStart(count)] is [itemsFromIndex(0, 0, count - 1)] and
    [itemsFromEnd(count)] is [itemsFromIndex(len - 1, count - 1, 0)] on the
    same vector; for a non-empty vector and [count >= 1] these are the
    windows of the first, respectively last, [min count len] items. *)
Theorem itemsFromStart_itemsFromEnd_windows w (count : Z) :
  itemsFromStart keySelector mapping count w
    = itemsFromIndex keySelector mapping 0 0 (count - 1) w
  /\ itemsFromEnd keySelector mapping count w
     = itemsFromIndex keySelector mapping
         (Z.of_nat (length (_observableVector w)) - 1) (count - 1) 0 w
  /\ (_observableVector w <> [] -> 1 <= count ->
      itemsFromStart keySelector mapping count w
        = Normal (Fulfilled (first_items_window keySelector mapping (_observableVector w) count)) w
      /\ itemsFromEnd keySelector mapping count w
         = Normal (Fulfilled (last_items_window keySelector mapping (_observableVector w) count)) w).
Proof.
  assert (Hend : itemsFromEnd keySelector mapping count w
     = itemsFromIndex keySelector mapping
         (Z.of_nat (length (_observableVector w)) - 1) (count - 1) 0 w) by reflexivity.
  split; [reflexivity|]. split; [exact Hend|].
  intros Hne Hcount. rewrite Hend. unfold itemsFromStart.
  assert (Hlen : 0 < Z.of_nat (length (_observableVector w))).
  { destruct (_observableVector w); [done|cbn; lia]. }
  set (len := Z.of_nat (length (_observableVector w))) in *.
  split.
  - rewrite itemsFromIndex_below_length by (fold len; lia). fold len.
    rewrite items_of_range by (fold len; lia).
    unfold first_items_window. fold len. cbn [Z.to_nat drop].
    replace (Z.max (0 - 0) 0) with 0 by lia.
    replace (Z.min (0 + (count - 1)) (len - 1)) with (Z.min count len - 1) by lia.
    replace (Z.min count len - 1 + 1 - 0) with (Z.min count len) by lia.
    replace (Z.min count len - 1 =? len - 1) with (Z.min count len =? len)
      by (destruct (Z.eqb_spec (Z.min count len) len),
                   (Z.eqb_spec (Z.min count len - 1) (len - 1)); lia).
    reflexivity.
  - rewrite itemsFromIndex_below_length by (fold len; lia). fold len.
    rewrite items_of_range by (fold len; lia).
    unfold last_items_window. fold len.
    replace (Z.max (len - 1 - (count - 1)) 0) with (len - Z.min count len) by lia.
    replace (Z.min (len - 1 + 0) (len - 1)) with (len - 1) by lia.
    rewrite Z.eqb_refl.
    replace (len - 1 + 1 - (len - Z.min count len)) with (Z.min count len) by lia.
    replace (len - Z.min count len =? 0) with (Z.min count len =? len)
      by (destruct (Z.eqb_spec (Z.min count len) len),
                   (Z.eqb_spec (len - Z.min count len) 0); lia).
    replace (len - 1 - (len - Z.min count len)) with (Z.min count len - 1) by lia.
    rewrite take_ge by (rewrite length_drop; unfold len; lia).
    reflexivity.
Qed.

(** ** Running queued callbacks *)

Lemma add_calls_nil w h : add_calls w h [] = w.
Proof. destruct w. unfold add_calls. cbn. by rewrite app_nil_r. Qed.

Lemma add_calls_app w h (cs1 cs2 : list (HandlerCall V)) :
  add_calls (add_calls w h cs1) h cs2 = add_calls w h (cs1 ++ cs2).
Proof. unfold add_calls. cbn. by rewrite fmap_app, app_assoc. Qed.

Lemma notify_attached w h (c : HandlerCall V) :
  _notificationHandler w = Some h ->
  notify c w = Normal tt (add_calls w h [c]).
Proof. destruct w. cbn. intros ->. reflexivity. Qed.

Lemma notify_unattached w (c : HandlerCall V) :
  _notificationHandler w = None ->
  notify c w = Throw TypeError w.
Proof. destruct w. cbn. intros ->. reflexivity. Qed.

(** Everything [_notifyInsertedAtIndex] does before it calls the handler is
    reading; the call it then makes is [inserted_call]. *)
Lemma notifyInsertedAtIndex_notify w (index : Z) :
  _notifyInsertedAtIndex keySelector mapping index w
  = notify (inserted_call keySelector mapping (_observableVector w) index) w.
Proof.
  unfold _notifyInsertedAtIndex, inserted_call, previous_key, next_key, item_of.
  unfold bind, observableVector_length, _keyFromIndex, _itemFromIndex,
    observableVector_at, bind, ret.
  destruct (Z.eqb_spec index 0) as [H0|H0],
           (Z.ltb_spec index (Z.of_nat (length (_observableVector w)) - 1)) as [Hl|Hl];
    repeat case_decide; try lia; reflexivity.
Qed.

Lemma forEach_notifyInsertedAtIndex_attached (l : list Z) w h :
  _notificationHandler w = Some h ->
  forEachJs (_notifyInsertedAtIndex keySelector mapping) l w
  = Normal tt (add_calls w h (inserted_call keySelector mapping (_observableVector w) <$> l)).
Proof.
  revert w. induction l as [|i l IH]; intros w Hh.
  - cbn. by rewrite add_calls_nil.
  - cbn [forEachJs]. unfold bind at 1.
    rewrite notifyInsertedAtIndex_notify, (notify_attached _ h) by done.
    rewrite IH by done. cbn [_observableVector add_calls].
    f_equal. rewrite add_calls_app. reflexivity.
Qed.

Lemma replay_attached w h :
  _notificationHandler w = Some h ->
  replay keySelector mapping w
  = Normal tt (add_calls w h (replay_calls keySelector mapping (_observableVector w))).
Proof.
  intros Hh. unfold replay, bind at 1, observableVector_length.
  destruct (_observableVector w) as [|x vec] eqn:Hvec.
  - cbn. unfold ret. by rewrite add_calls_nil.
  - replace (Z.of_nat (length (x :: vec)) >? 0) with true
      by (symmetry; apply Z.gtb_lt; cbn; lia).
    unfold bind. rewrite (notify_attached _ h) by done.
    rewrite (forEach_notifyInsertedAtIndex_attached _ _ h) by done.
    rewrite (notify_attached _ h) by done.
    rewrite !add_calls_app. cbn [add_calls _observableVector]. rewrite Hvec.
    unfold replay_calls, range. rewrite Z.sub_0_r.
    replace (Z.max (Z.of_nat (length (x :: vec))) 0)
      with (Z.of_nat (length (x :: vec))) by lia.
    reflexivity.
Qed.

Lemma collectionChangeHandler_notify w (cc : CollectionChange) (index : Z) :
  collectionChangeHandler keySelector mapping cc index w
  = notify (notification_of keySelector mapping (_observableVector w) cc index) w.
Proof.
  destruct cc; cbn; try reflexivity.
  apply notifyInsertedAtIndex_notify.
Qed.

(** A callback that runs while a handler is attached completes normally and
    delivers exactly the calls [calls_of] to that handler. *)
Lemma run_callback_attached w h (callback : Callback) :
  _notificationHandler w = Some h ->
  run_callback keySelector mapping callback w
  = Normal tt (add_calls w h (calls_of keySelector mapping (_observableVector w) callback)).
Proof.
  intros Hh. destruct callback as [cc index|]; cbn [run_callback calls_of].
  - rewrite collectionChangeHandler_notify. by apply notify_attached.
  - by apply replay_attached.
Qed.

(** A callback that runs while no handler is attached changes nothing. *)
Lemma run_callback_unattached w (callback : Callback) :
  _notificationHandler w = None ->
  world_of (run_callback keySelector mapping callback w) = w.
Proof.
  intros Hh. destruct callback as [cc index|]; cbn [run_callback].
  - rewrite collectionChangeHandler_notify. by rewrite notify_unattached.
  - unfold replay, bind at 1, observableVector_length.
    destruct (Z.of_nat (length (_observableVector w)) >? 0); [|reflexivity].
    unfold bind. by rewrite notify_unattached.
Qed.

Lemma tick_attached w h (callback : Callback) (queue : list Callback) :
  _notificationHandler w = Some h ->
  immediates w = callback :: queue ->
  tick keySelector mapping w
  = add_calls (dequeue w) h (calls_of keySelector mapping (_observableVector w) callback).
Proof.
  intros Hh Hq. unfold tick. rewrite Hq.
  rewrite (run_callback_attached _ h) by done.
  unfold dequeue. by rewrite Hq.
Qed.

Lemma tick_idle w : immediates w = [] -> tick keySelector mapping w = w.
Proof. intros Hq. unfold tick. by rewrite Hq. Qed.

(** ** The listener and the host steps *)

Lemma vectorchanged_attached w h (ev : IVectorChangedEventArgs) :
  _notificationHandler w = Some h ->
  vectorchanged ev w
  = Normal tt {| _observableVector := _observableVector w;
                 _notificationHandler := _notificationHandler w;
                 immediates := immediates w ++ [callback_of ev];
                 calls := calls w |}.
Proof.
  intros Hh. unfold vectorchanged, bind, get_notificationHandler.
  rewrite Hh. unfold setImmediate. cbn. by rewrite Hh.
Qed.

Lemma vectorchanged_unattached w (ev : IVectorChangedEventArgs) :
  _notificationHandler w = None ->
  vectorchanged ev w = Normal tt w.
Proof.
  intros Hh. unfold vectorchanged, bind, get_notificationHandler.
  by rewrite Hh.
Qed.

Lemma host_mutation_attached w h vec' (ev : IVectorChangedEventArgs) :
  _notificationHandler w = Some h ->
  host_mutation vec' ev w
  = Normal tt {| _observableVector := vec';
                 _notificationHandler := _notificationHandler w;
                 immediates := immediates w ++ [callback_of ev];
                 calls := calls w |}.
Proof.
  intros Hh. unfold host_mutation.
  by rewrite (vectorchanged_attached _ h).
Qed.

Lemma host_mutation_unattached w vec' (ev : IVectorChangedEventArgs) :
  _notificationHandler w = None ->
  host_mutation vec' ev w = Normal tt (set_vector vec' w).
Proof.
  intros Hh. unfold host_mutation. by rewrite vectorchanged_unattached.
Qed.

Lemma setNotificationHandler_eq w h :
  setNotificationHandler h w
  = Normal tt {| _observableVector := _observableVector w;
                 _notificationHandler := Some h;
                 immediates := immediates w ++ [replayExistingItems];
                 calls := calls w |}.
Proof. reflexivity. Qed.

(** One turn of the event loop takes the oldest callback off the queue and
    touches neither the vector nor the handler field. *)
Lemma tick_frame w :
  _observableVector (tick keySelector mapping w) = _observableVector w
  /\ _notificationHandler (tick keySelector mapping w) = _notificationHandler w
  /\ immediates (tick keySelector mapping w) = tail (immediates w).
Proof.
  destruct (immediates w) as [|callback queue] eqn:Hq.
  - by rewrite tick_idle.
  - destruct (_notificationHandler w) as [h|] eqn:Hh.
    + rewrite (tick_attached _ h callback queue) by done. cbn. by rewrite Hq.
    + unfold tick. rewrite Hq, run_callback_unattached by done. done.
Qed.

(** A step other than a turn of the event loop only appends to the queue. *)
Lemma run_step_queue_grows w (step : HostStep) :
  is_tick step = false ->
  exists extra,
    immediates (run_step keySelector mapping step w) = immediates w ++ extra.
Proof.
  destruct step as [vec' ev| |h]; [|done|]; intros _; cbn [run_step].
  - destruct (_notificationHandler w) as [h|] eqn:Hh.
    + rewrite (host_mutation_attached _ h) by done. by eexists.
    + rewrite host_mutation_unattached by done. exists []. cbn.
      by rewrite app_nil_r.
  - by eexists.
Qed.

(** An attached handler stays attached, and stays the same one as long as
    nobody attaches another. *)
Lemma run_step_attached w h (step : HostStep) :
  _notificationHandler w = Some h ->
  exists h', _notificationHandler (run_step keySelector mapping step w) = Some h'
             /\ (is_attach step = false -> h' = h).
Proof.
  intros Hh. destruct step as [vec' ev| |h0]; cbn [run_step].
  - rewrite (host_mutation_attached _ h) by done. by exists h.
  - destruct (tick_frame w) as (_ & -> & _). by exists h.
  - by exists h0.
Qed.

Lemma run_steps_attached (pre : list HostStep) w h :
  _notificationHandler w = Some h ->
  exists h', _notificationHandler (run_steps keySelector mapping pre w) = Some h'
             /\ (Forall (fun step => is_attach step = false) pre -> h' = h).
Proof.
  revert w h. induction pre as [|step pre IH]; intros w h Hh.
  - by exists h.
  - destruct (run_step_attached w h step Hh) as (h1 & Hh1 & Hsame1).
    destruct (IH _ _ Hh1) as (h2 & Hh2 & Hsame2).
    exists h2. split; [exact Hh2|].
    intros Hpre. apply Forall_cons in Hpre as [Hstep Hpre].
    rewrite Hsame2, Hsame1; done.
Qed.

(** A callback queued behind [length queue] others is at the head of the
    queue after any schedule with that many turns of the event loop. *)
Lemma queued_callback_reaches_head (callback : Callback) (pre : list HostStep) :
  forall w (queue rest : list Callback),
    immediates w = queue ++ callback :: rest ->
    count_ticks pre = length queue ->
    exists rest',
      immediates (run_steps keySelector mapping pre w) = callback :: rest'.
Proof.
  induction pre as [|step pre IH]; intros w queue rest Hq Hn.
  - destruct queue; [|done]. by exists rest.
  - cbn [run_steps foldl]. destruct (is_tick step) eqn:Htick.
    + destruct step; try done. unfold count_ticks in Hn. cbn in Hn.
      destruct queue as [|c queue]; [done|].
      apply (IH _ queue rest).
      * cbn [run_step]. destruct (tick_frame w) as (_ & _ & ->). by rewrite Hq.
      * unfold count_ticks. cbn in Hn. lia.
    + destruct (run_step_queue_grows w step Htick) as [extra Hextra].
      apply (IH _ queue (rest ++ extra)).
      * rewrite Hextra, Hq. by rewrite <- app_assoc.
      * unfold count_ticks in *. cbn in Hn. by rewrite Htick in Hn.
Qed.

(** Turns of the event loop alone leave the vector as it is. *)
Lemma run_steps_only_ticks_vector (pre : list HostStep) w :
  Forall (fun step => is_tick step = true) pre ->
  _observableVector (run_steps keySelector mapping pre w) = _observableVector w.
Proof.
  revert w. induction pre as [|step pre IH]; intros w Hpre; [done|].
  apply Forall_cons in Hpre as [Hstep Hpre].
  cbn [run_steps foldl]. destruct step; try done.
  unfold run_steps in IH. rewrite IH by done.
  cbn [run_step]. by destruct (tick_frame w) as (-> & _).
Qed.

(** The callback queued by an operation runs on the turn of the event loop
    that follows as many turns as there were callbacks queued before it, and
    it then delivers its calls to the handler attached at that time. *)
Lemma queued_callback_runs w h (callback : Callback) (rest : list Callback)
    (pre : list HostStep) :
  _notificationHandler w = Some h ->
  immediates w = rest ++ [callback] ->
  count_ticks pre = length rest ->
  exists h',
    _notificationHandler (run_steps keySelector mapping pre w) = Some h'
    /\ (Forall (fun step => is_attach step = false) pre -> h' = h)
    /\ tick keySelector mapping (run_steps keySelector mapping pre w)
       = add_calls (dequeue (run_steps keySelector mapping pre w)) h'
           (calls_of keySelector mapping
              (_observableVector (run_steps keySelector mapping pre w)) callback).
Proof.
  intros Hh Hq Hn.
  destruct (run_steps_attached pre w h Hh) as (h' & Hh' & Hsame).
  destruct (queued_callback_reaches_head callback pre w rest [] Hq Hn)
    as [rest' Hhead].
  exists h'. split; [done|]. split; [done|].
  by apply (tick_attached _ h' callback rest').
Qed.

(** Without a new attachment, nothing queued behind a callback is a replay. *)
Lemma queued_callback_reaches_head_no_attach (callback : Callback)
    (pre : list HostStep) :
  forall w (queue rest : list Callback),
    Forall (fun step => is_attach step = false) pre ->
    immediates w = queue ++ callback :: rest ->
    count_ticks pre = length queue ->
    exists extra,
      immediates (run_steps keySelector mapping pre w) = callback :: rest ++ extra
      /\ Forall (fun cb => cb <> replayExistingItems) extra.
Proof.
  induction pre as [|step pre IH]; intros w queue rest Hpre Hq Hn.
  - destruct queue; [|done]. exists []. by rewrite app_nil_r.
  - apply Forall_cons in Hpre as [Hstep Hpre].
    cbn [run_steps foldl]. destruct step as [vec' ev| |h0]; [| |done].
    + unfold count_ticks in Hn. cbn in Hn. cbn [run_step].
      destruct (_notificationHandler w) as [h|] eqn:Hh.
      * destruct (IH (world_of (host_mutation vec' ev w)) queue
                    (rest ++ [callback_of ev]) Hpre) as (extra & Hex & Hno).
        { rewrite (host_mutation_attached _ h) by done. cbn.
          rewrite Hq. by rewrite <- app_assoc. }
        { done. }
        exists (callback_of ev :: extra). split.
        { unfold run_steps in *. rewrite Hex. by rewrite <- app_assoc. }
        { by constructor. }
      * rewrite host_mutation_unattached by done.
        apply (IH _ queue rest); done.
    + unfold count_ticks in Hn. cbn in Hn.
      destruct queue as [|c queue]; [done|].
      apply (IH _ queue rest); [done| |cbn in Hn; unfold count_ticks; lia].
      cbn [run_step]. destruct (tick_frame w) as (_ & _ & ->). by rewrite Hq.
Qed.

Lemma lookup_inserted_calls vec (i : nat) (x : V) :
  vec !! i = Some x ->
  (inserted_call keySelector mapping vec <$> seqZ 0 (Z.of_nat (length vec))) !! i
  = Some (inserted (item_of keySelector mapping x)
                   (previous_key keySelector vec (Z.of_nat i))
                   (next_key keySelector vec (Z.of_nat i))
                   (Z.of_nat i)).
Proof.
  intros Hx. pose proof (lookup_lt_Some _ _ _ Hx) as Hlt.
  rewrite list_lookup_fmap, lookup_seqZ_lt by lia.
  rewrite Z.add_0_l. cbn [fmap option_fmap option_map].
  unfold inserted_call. by rewrite (vector_at_lookup vec i x).
Qed.

(** C3: [setNotificationHandler(h)] itself calls no handler method and queues
    exactly one callback.  That callback runs on a later turn of the event
    loop (after the callbacks queued before it) and addresses the handler that
    is attached then, which is [h] unless another handler has been attached in
    the meantime.  If the vector is then non-empty, the handler receives
    [beginNotifications()], one [inserted] per element in ascending index
    order, and [endNotifications()]; if it is empty, it receives nothing.  No
    further replay is pending afterwards. *)
Theorem setNotificationHandler_replays_once w h (pre : list HostStep) :
  count_ticks pre = length (immediates w) ->
  setNotificationHandler h w
    = Normal tt {| _observableVector := _observableVector w;
                   _notificationHandler := Some h;
                   immediates := immediates w ++ [replayExistingItems];
                   calls := calls w |}
  /\ let w2 := run_steps keySelector mapping pre
                 (world_of (setNotificationHandler h w)) in
     exists h' : Handler,
       _notificationHandler w2 = Some h'
       /\ (Forall (fun step => is_attach step = false) pre ->
           h' = h
           /\ Forall (fun cb => cb <> replayExistingItems)
                     (immediates (tick keySelector mapping w2)))
       /\ tick keySelector mapping w2
          = add_calls (dequeue w2) h' (replay_calls keySelector mapping (_observableVector w2))
       /\ (_observableVector w2 = [] -> calls (tick keySelector mapping w2) = calls w2)
       /\ (_observableVector w2 <> [] ->
           calls (tick keySelector mapping w2)
           = calls w2
             ++ [(h', beginNotifications)]
             ++ ((fun i => (h', inserted_call keySelector mapping (_observableVector w2) i))
                   <$> seqZ 0 (Z.of_nat (length (_observableVector w2))))
             ++ [(h', endNotifications)])
       /\ (forall (i : nat) (x : V),
             _observableVector w2 !! i = Some x ->
             (inserted_call keySelector mapping (_observableVector w2)
                <$> seqZ 0 (Z.of_nat (length (_observableVector w2)))) !! i
             = Some (inserted (item_of keySelector mapping x)
                              (previous_key keySelector (_observableVector w2) (Z.of_nat i))
                              (next_key keySelector (_observableVector w2) (Z.of_nat i))
                              (Z.of_nat i))).
Proof.
  intros Hn. split; [reflexivity|].
  rewrite setNotificationHandler_eq. cbn [world_of].
  set (w1 := {| _observableVector := _observableVector w; _notificationHandler := Some h;
                immediates := immediates w ++ [replayExistingItems];
                calls := calls w |}).
  destruct (queued_callback_runs w1 h replayExistingItems (immediates w) pre)
    as (h' & Hh' & Hsame & Htick); [done..|].
  cbn zeta. set (w2 := run_steps keySelector mapping pre w1) in *.
  cbn [calls_of] in Htick.
  exists h'. split; [done|]. split; [|split; [exact Htick|]].
  { intros Hpre. split; [by apply Hsame|].
    destruct (queued_callback_reaches_head_no_attach replayExistingItems pre w1
                (immediates w) [] Hpre eq_refl Hn) as (extra & Hextra & Hno).
    fold w2 in Hextra. rewrite Htick. cbn. by rewrite Hextra. }
  rewrite Htick. split; [|split].
  - intros ->. cbn. by rewrite app_nil_r.
  - intros Hne. cbn [add_calls calls dequeue _observableVector].
    destruct (_observableVector w2) as [|x vec] eqn:Hvec; [done|].
    cbn [replay_calls]. cbn [fmap list_fmap app].
    rewrite fmap_app, <- list_fmap_compose. reflexivity.
  - intros i x Hx. by apply lookup_inserted_calls.
Qed.

(** C4: an [itemInserted] event at [i], raised while a handler is attached,
    is answered by no call inside the mutation and by exactly one call when
    its callback runs: [inserted(item, previousKey, nextKey, i)], with [item]
    the pair of vector position [i], [previousKey] [null] if [i = 0] and the
    key of position [i - 1] otherwise, and [nextKey] [null] if
    [i >= length - 1] and the key of position [i + 1] otherwise. *)
Theorem itemInserted_yields_one_inserted w h vec' (i : Z) (pre : list HostStep) :
  _notificationHandler w = Some h ->
  count_ticks pre = length (immediates w) ->
  host_mutation vec' {| collectionChange := itemInserted; index := i |} w
    = Normal tt {| _observableVector := vec';
                   _notificationHandler := Some h;
                   immediates := immediates w ++ [makeCollectionChangeHandler itemInserted i];
                   calls := calls w |}
  /\ let w2 := run_steps keySelector mapping pre
                 (world_of (host_mutation vec'
                    {| collectionChange := itemInserted; index := i |} w)) in
     (Forall (fun step => is_tick step = true) pre -> _observableVector w2 = vec')
     /\ exists (h' : Handler) (item : IItem V) (previousKey nextKey : V),
          _notificationHandler w2 = Some h'
          /\ (Forall (fun step => is_attach step = false) pre -> h' = h)
          /\ tick keySelector mapping w2
             = add_calls (dequeue w2) h' [inserted item previousKey nextKey i]
          /\ item = {| data := _mapping mapping (vector_at (_observableVector w2) i);
                       key := keySelector (vector_at (_observableVector w2) i) |}
          /\ (i = 0 -> previousKey = null)
          /\ (i <> 0 -> previousKey = keySelector (vector_at (_observableVector w2) (i - 1)))
          /\ (i >= Z.of_nat (length (_observableVector w2)) - 1 -> nextKey = null)
          /\ (i < Z.of_nat (length (_observableVector w2)) - 1 ->
              nextKey = keySelector (vector_at (_observableVector w2) (i + 1))).
Proof.
  intros Hh Hn.
  rewrite (host_mutation_attached _ h) by done. rewrite Hh.
  split; [reflexivity|]. cbn [world_of callback_of collectionChange index].
  set (w1 := {| _observableVector := vec'; _notificationHandler := Some h;
                immediates := immediates w ++ [makeCollectionChangeHandler itemInserted i];
                calls := calls w |}).
  cbn zeta. split.
  { intros Hticks. by rewrite run_steps_only_ticks_vector. }
  destruct (queued_callback_runs w1 h (makeCollectionChangeHandler itemInserted i)
              (immediates w) pre) as (h' & Hh' & Hsame & Htick); [done..|].
  set (w2 := run_steps keySelector mapping pre w1) in *.
  exists h', (item_of keySelector mapping (vector_at (_observableVector w2) i)),
    (previous_key keySelector (_observableVector w2) i), (next_key keySelector (_observableVector w2) i).
  split; [done|]. split; [done|]. split; [exact Htick|]. split; [reflexivity|].
  unfold previous_key, next_key. repeat split; intros; case_decide; done || lia.
Qed.

(** C6: an [itemRemoved] event at [i], raised while a handler is attached, is
    answered by no call inside the mutation and by exactly one call when its
    callback runs: [removed(null, i)], whatever the vector holds. *)
Theorem itemRemoved_yields_one_removed w h vec' (i : Z) (pre : list HostStep) :
  _notificationHandler w = Some h ->
  count_ticks pre = length (immediates w) ->
  host_mutation vec' {| collectionChange := itemRemoved; index := i |} w
    = Normal tt {| _observableVector := vec';
                   _notificationHandler := Some h;
                   immediates := immediates w ++ [makeCollectionChangeHandler itemRemoved i];
                   calls := calls w |}
  /\ let w2 := run_steps keySelector mapping pre
                 (world_of (host_mutation vec'
                    {| collectionChange := itemRemoved; index := i |} w)) in
     exists h' : Handler,
       _notificationHandler w2 = Some h'
       /\ (Forall (fun step => is_attach step = false) pre -> h' = h)
       /\ tick keySelector mapping w2
          = {| _observableVector := _observableVector w2;
               _notificationHandler := _notificationHandler w2;
               immediates := tail (immediates w2);
               calls := calls w2 ++ [(h', removed null i)] |}.
Proof.
  intros Hh Hn.
  rewrite (host_mutation_attached _ h) by done. rewrite Hh.
  split; [reflexivity|]. cbn [world_of callback_of collectionChange index].
  set (w1 := {| _observableVector := vec'; _notificationHandler := Some h;
                immediates := immediates w ++ [makeCollectionChangeHandler itemRemoved i];
                calls := calls w |}).
  cbn zeta.
  destruct (queued_callback_runs w1 h (makeCollectionChangeHandler itemRemoved i)
              (immediates w) pre) as (h' & Hh' & Hsame & Htick); [done..|].
  exists h'. split; [done|]. split; [done|]. exact Htick.
Qed.

(** ** Several events *)

Lemma ticks_attached (cbs : list Callback) :
  forall w h (rest : list Callback),
    _notificationHandler w = Some h ->
    immediates w = cbs ++ rest ->
    ticks keySelector mapping (length cbs) w
    = {| _observableVector := _observableVector w;
         _notificationHandler := _notificationHandler w;
         immediates := rest;
         calls := calls w
                  ++ ((fun c => (h, c))
                        <$> concat (calls_of keySelector mapping (_observableVector w) <$> cbs)) |}.
Proof.
  induction cbs as [|cb cbs IH]; intros w h rest Hh Hq.
  - destruct w. cbn in *. subst. by rewrite app_nil_r.
  - cbn [length ticks]. rewrite (tick_attached w h cb (cbs ++ rest)) by done.
    rewrite (IH _ h rest); [|done|cbn; by rewrite Hq].
    cbn. by rewrite fmap_app, app_assoc.
Qed.

Lemma run_steps_mutations_attached (ms : list (list V * IVectorChangedEventArgs)) :
  forall w h,
    _notificationHandler w = Some h ->
    _notificationHandler (run_steps keySelector mapping (mutations ms) w) = Some h
    /\ calls (run_steps keySelector mapping (mutations ms) w) = calls w
    /\ immediates (run_steps keySelector mapping (mutations ms) w)
       = immediates w ++ (callback_of <$> ms.*2).
Proof.
  induction ms as [|[vec' ev] ms IH]; intros w h Hh.
  - cbn. by rewrite app_nil_r.
  - cbn [mutations fmap list_fmap run_steps foldl run_step fst snd].
    rewrite (host_mutation_attached _ h) by done. cbn [world_of].
    destruct (IH {| _observableVector := vec';
                    _notificationHandler := _notificationHandler w;
                    immediates := immediates w ++ [callback_of ev];
                    calls := calls w |} h Hh) as (IH1 & IH2 & IH3).
    unfold run_steps, mutations in *. rewrite IH1, IH2, IH3. cbn.
    by rewrite <- app_assoc.
Qed.

Lemma calls_of_change_callbacks vec (evs : list IVectorChangedEventArgs) :
  concat (calls_of keySelector mapping vec <$> (callback_of <$> evs))
  = (fun ev => notification_of keySelector mapping vec
                 (collectionChange ev) (index ev)) <$> evs.
Proof. induction evs as [|ev evs IH]; [done|]. cbn. by rewrite <- IH. Qed.

(** C5: a change event raised while a handler is attached makes no handler
    call inside the mutation; it queues one callback of its own, which on a
    later turn of the event loop makes exactly one call: [reload()] for a
    reset, [inserted(...)] for an insertion, [removed(null, i)] for a removal,
    [changed(item)] for a change.  Successive events are not merged: each one
    queues its own callback and each callback makes its own call. *)
Theorem every_event_yields_one_deferred_call w h vec'
    (ev : IVectorChangedEventArgs) (pre : list HostStep)
    (ms : list (list V * IVectorChangedEventArgs)) :
  _notificationHandler w = Some h ->
  count_ticks pre = length (immediates w) ->
  host_mutation vec' ev w
    = Normal tt {| _observableVector := vec';
                   _notificationHandler := Some h;
                   immediates := immediates w
                     ++ [makeCollectionChangeHandler (collectionChange ev) (index ev)];
                   calls := calls w |}
  /\ (let w2 := run_steps keySelector mapping pre
                  (world_of (host_mutation vec' ev w)) in
      exists (h' : Handler) (call : HandlerCall V),
        _notificationHandler w2 = Some h'
        /\ (Forall (fun step => is_attach step = false) pre -> h' = h)
        /\ tick keySelector mapping w2
           = {| _observableVector := _observableVector w2;
                _notificationHandler := _notificationHandler w2;
                immediates := tail (immediates w2);
                calls := calls w2 ++ [(h', call)] |}
        /\ call = match collectionChange ev with
                  | reset => reload
                  | itemInserted =>
                      inserted (item_of keySelector mapping
                                  (vector_at (_observableVector w2) (index ev)))
                               (previous_key keySelector (_observableVector w2) (index ev))
                               (next_key keySelector (_observableVector w2) (index ev))
                               (index ev)
                  | itemRemoved => removed null (index ev)
                  | itemChanged =>
                      changed (item_of keySelector mapping
                                 (vector_at (_observableVector w2) (index ev)))
                  end)
  /\ (let wm := run_steps keySelector mapping (mutations ms) w in
      calls wm = calls w
      /\ immediates wm = immediates w ++ (callback_of <$> ms.*2)
      /\ (immediates w = [] ->
          immediates (ticks keySelector mapping (length ms) wm) = []
          /\ calls (ticks keySelector mapping (length ms) wm)
             = calls w
               ++ ((fun m => (h, notification_of keySelector mapping (_observableVector wm)
                                   (collectionChange m.2) (index m.2))) <$> ms))).
Proof.
  intros Hh Hn.
  rewrite (host_mutation_attached _ h) by done. rewrite Hh.
  split; [reflexivity|]. cbn [world_of]. split.
  - set (w1 := {| _observableVector := vec'; _notificationHandler := Some h;
                  immediates := immediates w ++ [callback_of ev];
                  calls := calls w |}).
    cbn zeta.
    destruct (queued_callback_runs w1 h (callback_of ev) (immediates w) pre)
      as (h' & Hh' & Hsame & Htick); [done..|].
    exists h'. eexists. split; [done|]. split; [done|].
    split; [exact Htick|].
    cbn [callback_of calls_of]. by destruct (collectionChange ev).
  - cbn zeta.
    destruct (run_steps_mutations_attached ms w h Hh) as (Hhm & Hcm & Hqm).
    split; [done|]. split; [done|]. intros Hidle.
    rewrite Hidle in Hqm. cbn [app] in Hqm.
    replace (length ms) with (length (callback_of <$> ms.*2))
      by (by rewrite !length_fmap).
    rewrite (ticks_attached _ _ h []) by (by rewrite ?app_nil_r).
    cbn [immediates calls]. split; [done|].
    rewrite Hcm, calls_of_change_callbacks.
    by rewrite <- !list_fmap_compose.
Qed.

(** ** The vector is only read *)

Lemma ret_leaves_vector_alone {A : Type} (a : A) :
  leaves_vector_alone (ret a : Js V Handler A).
Proof. done. Qed.

Lemma bind_leaves_vector_alone {A B : Type} (m : Js V Handler A)
    (k : A -> Js V Handler B) :
  leaves_vector_alone m ->
  (forall a, leaves_vector_alone (k a)) ->
  leaves_vector_alone (bind m k).
Proof.
  intros Hm Hk w. unfold bind. specialize (Hm w).
  destruct (m w) as [a w'|e w']; cbn in Hm; [|done].
  by rewrite Hk.
Qed.

Lemma observableVector_at_leaves_vector_alone (index : Z) :
  leaves_vector_alone (observableVector_at index : Js V Handler V).
Proof. done. Qed.

Lemma observableVector_length_leaves_vector_alone :
  leaves_vector_alone (observableVector_length : Js V Handler Z).
Proof. done. Qed.

Lemma get_notificationHandler_leaves_vector_alone :
  leaves_vector_alone (get_notificationHandler : Js V Handler (option Handler)).
Proof. done. Qed.

Lemma put_notificationHandler_leaves_vector_alone h :
  leaves_vector_alone (put_notificationHandler h : Js V Handler unit).
Proof. done. Qed.

Lemma setImmediate_leaves_vector_alone (callback : Callback) :
  leaves_vector_alone (setImmediate callback : Js V Handler unit).
Proof. done. Qed.

Lemma notify_leaves_vector_alone (call : HandlerCall V) :
  leaves_vector_alone (notify call : Js V Handler unit).
Proof. intros w. unfold notify. by destruct (_notificationHandler w). Qed.

Lemma mapJs_leaves_vector_alone {A B : Type} (f : A -> Js V Handler B)
    (l : list A) :
  (forall a, leaves_vector_alone (f a)) ->
  leaves_vector_alone (mapJs f l).
Proof.
  intros Hf. induction l as [|a l IH]; [done|].
  cbn [mapJs]. apply bind_leaves_vector_alone; [done|]. intros b.
  apply bind_leaves_vector_alone; [done|]. intros bs. done.
Qed.

Lemma forEachJs_leaves_vector_alone {A : Type} (f : A -> Js V Handler unit)
    (l : list A) :
  (forall a, leaves_vector_alone (f a)) ->
  leaves_vector_alone (forEachJs f l).
Proof.
  intros Hf. induction l as [|a l IH]; [done|].
  cbn [forEachJs]. by apply bind_leaves_vector_alone.
Qed.

Create HintDb vector_frame.

#[local] Hint Resolve ret_leaves_vector_alone bind_leaves_vector_alone
  observableVector_at_leaves_vector_alone
  observableVector_length_leaves_vector_alone
  get_notificationHandler_leaves_vector_alone
  put_notificationHandler_leaves_vector_alone
  setImmediate_leaves_vector_alone notify_leaves_vector_alone
  mapJs_leaves_vector_alone forEachJs_leaves_vector_alone : vector_frame.

(** Splits a bind and the branches of a conditional, then looks the pieces
    up in the hint database. *)
Ltac vector_frame :=
  repeat first
    [ apply bind_leaves_vector_alone; [|intros ?]
    | match goal with
      | |- leaves_vector_alone (if ?b then _ else _) => destruct b
      | |- leaves_vector_alone (match ?x with _ => _ end) => destruct x
      end
    | progress eauto with vector_frame ].

Lemma itemFromIndex_leaves_vector_alone (index : Z) :
  leaves_vector_alone (_itemFromIndex keySelector mapping index : Js V Handler _).
Proof. unfold _itemFromIndex. vector_frame. Qed.

Lemma keyFromIndex_leaves_vector_alone (index : Z) :
  leaves_vector_alone (_keyFromIndex keySelector index : Js V Handler _).
Proof. unfold _keyFromIndex. vector_frame. Qed.

#[local] Hint Resolve itemFromIndex_leaves_vector_alone
  keyFromIndex_leaves_vector_alone : vector_frame.

Lemma notifyInsertedAtIndex_leaves_vector_alone (index : Z) :
  leaves_vector_alone
    (_notifyInsertedAtIndex keySelector mapping index : Js V Handler _).
Proof. unfold _notifyInsertedAtIndex. vector_frame. Qed.

#[local] Hint Resolve notifyInsertedAtIndex_leaves_vector_alone : vector_frame.

Lemma itemsFromIndex_leaves_vector_alone (index countBefore countAfter : Z) :
  leaves_vector_alone
    (itemsFromIndex keySelector mapping index countBefore countAfter
       : Js V Handler _).
Proof. unfold itemsFromIndex. vector_frame. Qed.

Lemma run_callback_leaves_vector_alone (callback : Callback) :
  leaves_vector_alone (run_callback keySelector mapping callback : Js V Handler _).
Proof.
  destruct callback as [cc index|]; cbn [run_callback].
  - unfold collectionChangeHandler. vector_frame.
  - unfold replay. vector_frame.
Qed.

(** C9: no operation of the adapter changes the observable vector: after
    [getCount], [itemsFromIndex], [itemsFromStart], [itemsFromEnd],
    [setNotificationHandler], the ["vectorchanged"] listener, the private
    helpers, and every queued callback (the translation of an event and the
    replay), the vector holds exactly the elements it held before, whether
    the operation returned or threw. *)
Theorem adapter_never_mutates_vector :
  leaves_vector_alone (getCount : Js V Handler _)
  /\ (forall index countBefore countAfter,
        leaves_vector_alone
          (itemsFromIndex keySelector mapping index countBefore countAfter
             : Js V Handler _))
  /\ (forall count,
        leaves_vector_alone (itemsFromStart keySelector mapping count : Js V Handler _))
  /\ (forall count,
        leaves_vector_alone (itemsFromEnd keySelector mapping count : Js V Handler _))
  /\ (forall h, leaves_vector_alone (setNotificationHandler h : Js V Handler _))
  /\ (forall ev, leaves_vector_alone (vectorchanged ev : Js V Handler _))
  /\ (forall index,
        leaves_vector_alone (_itemFromIndex keySelector mapping index : Js V Handler _))
  /\ (forall index,
        leaves_vector_alone (_keyFromIndex keySelector index : Js V Handler _))
  /\ (forall index,
        leaves_vector_alone
          (_notifyInsertedAtIndex keySelector mapping index : Js V Handler _))
  /\ (forall callback,
        leaves_vector_alone (run_callback keySelector mapping callback : Js V Handler _))
  /\ (forall w, _observableVector (tick keySelector mapping w) = _observableVector w
                /\ length (_observableVector (tick keySelector mapping w)) = length (_observableVector w)).
Proof.
  repeat apply conj.
  - unfold getCount. vector_frame.
  - apply itemsFromIndex_leaves_vector_alone.
  - intros count. apply itemsFromIndex_leaves_vector_alone.
  - intros count. unfold itemsFromEnd.
    apply bind_leaves_vector_alone; [done|]. intros len.
    apply itemsFromIndex_leaves_vector_alone.
  - intros h. unfold setNotificationHandler. vector_frame.
  - intros ev. unfold vectorchanged. vector_frame.
  - apply itemFromIndex_leaves_vector_alone.
  - apply keyFromIndex_leaves_vector_alone.
  - apply notifyInsertedAtIndex_leaves_vector_alone.
  - apply run_callback_leaves_vector_alone.
  - intros w. by destruct (tick_frame w) as (-> & _).
Qed.

(** C10: a change event raised while no handler is attached schedules
    nothing and calls nothing: the world after the mutation is the world in
    which the contents changed silently, so every later run, including one
    that attaches a handler before the next turn of the event loop, is the
    run in which the event was never raised; a handler attached next learns
    of the contents only through its replay. *)
Theorem event_without_handler_is_dropped w vec' (ev : IVectorChangedEventArgs)
    (steps : list HostStep) h :
  _notificationHandler w = None ->
  vectorchanged ev w = Normal tt w
  /\ host_mutation vec' ev w = Normal tt (set_vector vec' w)
  /\ immediates (world_of (host_mutation vec' ev w)) = immediates w
  /\ calls (world_of (host_mutation vec' ev w)) = calls w
  /\ run_steps keySelector mapping steps (world_of (host_mutation vec' ev w))
     = run_steps keySelector mapping steps (set_vector vec' w)
  /\ (immediates w = [] ->
      run_steps keySelector mapping [HostAttach h; HostTick]
        (world_of (host_mutation vec' ev w))
      = {| _observableVector := vec';
           _notificationHandler := Some h;
           immediates := [];
           calls := calls w
                    ++ ((fun c => (h, c)) <$> replay_calls keySelector mapping vec') |}).
Proof.
  intros Hh.
  rewrite host_mutation_unattached, vectorchanged_unattached by done.
  cbn [world_of]. repeat apply conj; try reflexivity.
  intros Hidle. cbn [run_steps foldl run_step].
  rewrite setNotificationHandler_eq. cbn [world_of set_vector _observableVector immediates calls].
  rewrite Hidle. cbn [app].
  by rewrite (tick_attached _ h replayExistingItems []).
Qed.

(** * Further properties of the adapter *)

(** ** Fetching *)

Lemma itemsFromIndex_slice w (index countBefore countAfter : Z) :
  index < Z.of_nat (length (_observableVector w)) ->
  Z.max (index - countBefore) 0
    <= Z.min (index + countAfter) (Z.of_nat (length (_observableVector w)) - 1) + 1 ->
  exists r : IFetchResult V,
    itemsFromIndex keySelector mapping index countBefore countAfter w
      = Normal (Fulfilled r) w
    /\ items r
       = item_of keySelector mapping
         <$> vector_slice (_observableVector w)
               (Z.max (index - countBefore) 0)
               (Z.min (index + countAfter)
                      (Z.of_nat (length (_observableVector w)) - 1)).
Proof.
  intros Hlt _. eexists. split; [by apply itemsFromIndex_below_length|].
  cbn [items]. by rewrite items_of_range by lia.
Qed.

(** X1: a fetch below the length, for a negative index too and for counts of
    either sign, whose window is not reversed (its first position
    [max (index - countBefore) 0] is at most one past its last position
    [min (index + countAfter) (len - 1)]) is fulfilled with the pairs of that
    contiguous slice of the vector: no item is read from outside the
    vector. *)
Theorem itemsFromIndex_items_are_a_slice w (index countBefore countAfter : Z) :
  index < Z.of_nat (length (_observableVector w)) ->
  Z.max (index - countBefore) 0
    <= Z.min (index + countAfter) (Z.of_nat (length (_observableVector w)) - 1) + 1 ->
  exists r : IFetchResult V,
    itemsFromIndex keySelector mapping index countBefore countAfter w
      = Normal (Fulfilled r) w
    /\ items r
       = item_of keySelector mapping
         <$> vector_slice (_observableVector w)
               (Z.max (index - countBefore) 0)
               (Z.min (index + countAfter)
                      (Z.of_nat (length (_observableVector w)) - 1))
    /\ Forall (fun it => exists x, x ∈ _observableVector w
                                   /\ it = item_of keySelector mapping x)
              (items r)
    /\ (length (items r) <= length (_observableVector w))%nat.
Proof.
  intros Hlt _. eexists. split; [by apply itemsFromIndex_below_length|].
  cbn [items]. rewrite items_of_range by lia. unfold vector_slice.
  split; [reflexivity|]. split.
  - apply Forall_fmap, Forall_forall. intros x Hx. exists x. split; [|done].
    by apply (subseteq_drop (Z.to_nat (Z.max (index - countBefore) 0))),
             (subseteq_take (Z.to_nat
                (Z.min (index + countAfter)
                   (Z.of_nat (length (_observableVector w)) - 1) + 1
                 - Z.max (index - countBefore) 0))).
  - rewrite length_fmap, length_take, length_drop. lia.
Qed.

(** X2: for an in-bounds index and non-negative counts the window holds at
    least the requested item and at most [countBefore + 1 + countAfter]
    items, the offset lies inside it, and away from both ends of the vector
    the window has exactly that size with the requested item at position
    [countBefore]. *)
Theorem itemsFromIndex_window_size w (index countBefore countAfter : Z) :
  0 <= index < Z.of_nat (length (_observableVector w)) ->
  0 <= countBefore ->
  0 <= countAfter ->
  exists r : IFetchResult V,
    itemsFromIndex keySelector mapping index countBefore countAfter w
      = Normal (Fulfilled r) w
    /\ 1 <= Z.of_nat (length (items r))
         <= Z.min (Z.of_nat (length (_observableVector w)))
                  (countBefore + 1 + countAfter)
    /\ 0 <= offset r <= countBefore
    /\ offset r < Z.of_nat (length (items r))
    /\ (countBefore <= index ->
        index + countAfter <= Z.of_nat (length (_observableVector w)) - 1 ->
        Z.of_nat (length (items r)) = countBefore + 1 + countAfter
        /\ offset r = countBefore).
Proof.
  intros Hidx Hcb Hca. eexists. split; [apply itemsFromIndex_below_length; lia|].
  cbn [items offset]. rewrite items_of_range by lia.
  rewrite length_fmap, length_take, length_drop. lia.
Qed.

(** X3: pages tile the vector: the window of [index] and the [a] items after
    it, followed by the window that starts right behind it and takes [b] more
    items, holds the same items as the one window of [index] and the
    [a + 1 + b] items after it. *)
Theorem itemsFromIndex_adjacent_windows w (index a b : Z) :
  0 <= index ->
  0 <= a ->
  0 <= b ->
  index + a + 1 < Z.of_nat (length (_observableVector w)) ->
  exists r1 r2 r12 : IFetchResult V,
    itemsFromIndex keySelector mapping index 0 a w = Normal (Fulfilled r1) w
    /\ itemsFromIndex keySelector mapping (index + a + 1) 0 b w
       = Normal (Fulfilled r2) w
    /\ itemsFromIndex keySelector mapping index 0 (a + 1 + b) w
       = Normal (Fulfilled r12) w
    /\ items r1 ++ items r2 = items r12
    /\ atStart r12 = atStart r1
    /\ atEnd r12 = atEnd r2.
Proof.
  intros Hidx Ha Hb Hlt.
  set (len := Z.of_nat (length (_observableVector w))) in *.
  do 3 eexists.
  split; [apply itemsFromIndex_below_length; fold len; lia|].
  split; [apply itemsFromIndex_below_length; fold len; lia|].
  split; [apply itemsFromIndex_below_length; fold len; lia|].
  cbn [items atStart atEnd]. fold len.
  rewrite !items_of_range by (fold len; lia).
  replace (Z.max (index - 0) 0) with index by lia.
  replace (Z.max (index + a + 1 - 0) 0) with (index + a + 1) by lia.
  replace (Z.min (index + a) (len - 1)) with (index + a) by lia.
  replace (Z.min (index + (a + 1 + b)) (len - 1))
    with (Z.min (index + a + 1 + b) (len - 1)) by (f_equal; lia).
  split; [|done].
  rewrite <- fmap_app. f_equal.
  replace (Z.to_nat (index + a + 1))
    with (Z.to_nat index + Z.to_nat (index + a + 1 - index))%nat by lia.
  rewrite <- drop_drop, take_take_drop. f_equal. lia.
Qed.

(** X4: for an in-bounds index and non-negative counts, a fetch result is
    flagged both [atStart] and [atEnd] exactly when its items are the pairs
    of the whole vector. *)
Theorem itemsFromIndex_both_flags_iff_whole_vector w
    (index countBefore countAfter : Z) :
  0 <= index < Z.of_nat (length (_observableVector w)) ->
  0 <= countBefore ->
  0 <= countAfter ->
  exists r : IFetchResult V,
    itemsFromIndex keySelector mapping index countBefore countAfter w
      = Normal (Fulfilled r) w
    /\ (atStart r = true /\ atEnd r = true
        <-> items r = item_of keySelector mapping <$> _observableVector w).
Proof.
  intros Hidx Hcb Hca. eexists. split; [apply itemsFromIndex_below_length; lia|].
  cbn [items atStart atEnd]. rewrite items_of_range by lia.
  set (len := Z.of_nat (length (_observableVector w))) in *.
  split.
  - intros [Hs He]. apply Z.eqb_eq in Hs, He. rewrite Hs, He.
    replace (Z.to_nat 0) with 0%nat by lia. rewrite drop_0.
    rewrite take_ge by (unfold len; lia). reflexivity.
  - intros Hall. apply (f_equal length) in Hall.
    rewrite !length_fmap, length_take, length_drop in Hall.
    split; apply Z.eqb_eq; unfold len in *; lia.
Qed.

(** X5: fetching is pure reading: [getCount] and the three fetch operations
    leave the whole world as it was (nothing is queued, no handler is
    called), and the [totalCount] of any fulfilled fetch is the count that
    [getCount] reports. *)
Theorem fetches_change_nothing w (index countBefore countAfter count : Z) :
  getCount w = Normal (Fulfilled (Z.of_nat (length (_observableVector w)))) w
  /\ world_of (itemsFromIndex keySelector mapping index countBefore countAfter w) = w
  /\ world_of (itemsFromStart keySelector mapping count w) = w
  /\ world_of (itemsFromEnd keySelector mapping count w) = w
  /\ (forall (r : IFetchResult V) w',
        itemsFromIndex keySelector mapping index countBefore countAfter w
          = Normal (Fulfilled r) w' ->
        getCount w' = Normal (Fulfilled (totalCount r)) w').
Proof.
  assert (Hany : forall i cb ca,
    world_of (itemsFromIndex keySelector mapping i cb ca w) = w
    /\ forall (r : IFetchResult V) w',
         itemsFromIndex keySelector mapping i cb ca w = Normal (Fulfilled r) w' ->
         w' = w /\ totalCount r = Z.of_nat (length (_observableVector w))).
  { intros i cb ca.
    destruct (Z.le_gt_cases (Z.of_nat (length (_observableVector w))) i) as [Hge|Hlt].
    - rewrite itemsFromIndex_at_or_above_length by done. by split.
    - rewrite itemsFromIndex_below_length by done. split; [done|].
      by intros r w' [= <- <-]. }
  split; [reflexivity|]. split; [apply Hany|]. split; [apply Hany|].
  split; [apply (Hany (Z.of_nat (length (_observableVector w)) - 1))|].
  intros r w' Hr. destruct (proj2 (Hany _ _ _) r w' Hr) as [-> ->]. reflexivity.
Qed.

(** X6: when the key selector gives distinct keys to the elements of the
    vector, the keys of the items fetched for an in-bounds index and
    non-negative counts are distinct. *)
Theorem itemsFromIndex_keys_distinct w (index countBefore countAfter : Z) :
  NoDup (keySelector <$> _observableVector w) ->
  0 <= index < Z.of_nat (length (_observableVector w)) ->
  0 <= countBefore ->
  0 <= countAfter ->
  exists r : IFetchResult V,
    itemsFromIndex keySelector mapping index countBefore countAfter w
      = Normal (Fulfilled r) w
    /\ NoDup (key <$> items r).
Proof.
  intros Hkeys Hidx Hcb Hca.
  eexists. split; [apply itemsFromIndex_below_length; lia|].
  cbn [items]. rewrite items_of_range by lia.
  rewrite <- list_fmap_compose.
  change (key ∘ item_of keySelector mapping) with keySelector.
  rewrite fmap_take, fmap_drop.
  refine (sublist_NoDup _ _ Hkeys _).
  etrans; [apply sublist_take|apply sublist_drop].
Qed.

(** X8: on an empty vector [getCount] reports [0], every fetch by a
    non-negative index and every [itemsFromStart] is rejected with the "does
    not exist" error, but [itemsFromEnd] with a count of zero or more is not:
    it asks for the position [-1], which the guard lets through, and is
    fulfilled with a result that holds no item and names the position
    [-1]. *)
Theorem fetches_on_empty_vector w (index countBefore countAfter count : Z) :
  _observableVector w = [] ->
  getCount w = Normal (Fulfilled 0) w
  /\ (0 <= index ->
      itemsFromIndex keySelector mapping index countBefore countAfter w
      = Normal (Rejected (ErrorFromName doesNotExist)) w)
  /\ itemsFromStart keySelector mapping count w
     = Normal (Rejected (ErrorFromName doesNotExist)) w
  /\ (0 <= count ->
      exists r : IFetchResult V,
        itemsFromEnd keySelector mapping count w = Normal (Fulfilled r) w
        /\ items r = []
        /\ absoluteIndex r = -1
        /\ offset r = -1
        /\ atStart r = true
        /\ atEnd r = true
        /\ totalCount r = 0).
Proof.
  intros Hempty.
  assert (Hlen : Z.of_nat (length (_observableVector w)) = 0) by (by rewrite Hempty).
  split; [unfold getCount, bind, observableVector_length; by rewrite Hlen|].
  split; [intros Hidx; apply itemsFromIndex_at_or_above_length; lia|].
  split; [apply itemsFromIndex_at_or_above_length; lia|].
  assert (Hend : itemsFromEnd keySelector mapping count w
     = itemsFromIndex keySelector mapping
         (Z.of_nat (length (_observableVector w)) - 1) (count - 1) 0 w) by reflexivity.
  intros Hcount.
  eexists. rewrite Hend. split; [apply itemsFromIndex_below_length; lia|].
  cbn [items absoluteIndex offset atStart atEnd totalCount]. rewrite Hlen.
  replace (Z.max (0 - 1 - (count - 1)) 0) with 0 by lia.
  unfold range. rewrite seqZ_nil by lia.
  repeat apply conj; reflexivity.
Qed.

(** X9: a count of zero is no error on a non-empty vector: [itemsFromStart(0)]
    and [itemsFromEnd(0)] are both fulfilled, with a result that holds no
    item; the former names position [0] with offset [0], the latter names
    the last position with the offset [-1]. *)
Theorem zero_count_gives_empty_window w :
  _observableVector w <> [] ->
  exists rs re : IFetchResult V,
    itemsFromStart keySelector mapping 0 w = Normal (Fulfilled rs) w
    /\ items rs = [] /\ absoluteIndex rs = 0 /\ offset rs = 0
    /\ atStart rs = true /\ atEnd rs = false
    /\ itemsFromEnd keySelector mapping 0 w = Normal (Fulfilled re) w
    /\ items re = []
    /\ absoluteIndex re = Z.of_nat (length (_observableVector w)) - 1
    /\ offset re = -1
    /\ atStart re = false /\ atEnd re = true.
Proof.
  intros Hne.
  assert (Hlen : 0 < Z.of_nat (length (_observableVector w))).
  { destruct (_observableVector w); [done|cbn; lia]. }
  assert (Hend : itemsFromEnd keySelector mapping 0 w
     = itemsFromIndex keySelector mapping
         (Z.of_nat (length (_observableVector w)) - 1) (0 - 1) 0 w) by reflexivity.
  set (len := Z.of_nat (length (_observableVector w))) in *.
  do 2 eexists. rewrite Hend. unfold itemsFromStart.
  split; [apply itemsFromIndex_below_length; fold len; lia|].
  cbn [items absoluteIndex offset atStart atEnd]. fold len.
  unfold range. rewrite seqZ_nil by lia.
  split; [reflexivity|]. split; [reflexivity|]. split; [lia|].
  split; [apply Z.eqb_eq; lia|]. split; [apply Z.eqb_neq; lia|].
  split; [apply itemsFromIndex_below_length; fold len; lia|].
  cbn [items absoluteIndex offset atStart atEnd]. fold len.
  unfold range. rewrite seqZ_nil by lia.
  split; [reflexivity|]. split; [reflexivity|]. split; [lia|].
  split; [apply Z.eqb_neq; lia|apply Z.eqb_eq; lia].
Qed.

(** ** Notifying *)

Lemma vector_at_beyond vec (index : Z) :
  Z.of_nat (length vec) <= index -> vector_at vec index = undefined.
Proof.
  intros Hge. unfold vector_at. case_decide; [|done].
  by rewrite lookup_ge_None_2 by lia.
Qed.

(** X10: a queued translation reads the vector when it runs: if by then the
    position of the event lies beyond the end of the vector (the element was
    removed again in the meantime), the handler is still called, with the
    pair that the mapping and the key selector make of [undefined], and, for
    an insertion, with no next key. *)
Theorem notification_for_a_vanished_position w h (index : Z) :
  _notificationHandler w = Some h ->
  Z.of_nat (length (_observableVector w)) <= index ->
  run_callback keySelector mapping (makeCollectionChangeHandler itemChanged index) w
    = Normal tt (add_calls w h
        [changed {| data := _mapping mapping undefined;
                    key := keySelector undefined |}])
  /\ run_callback keySelector mapping
       (makeCollectionChangeHandler itemInserted index) w
     = Normal tt (add_calls w h
         [inserted {| data := _mapping mapping undefined;
                      key := keySelector undefined |}
                   (previous_key keySelector (_observableVector w) index)
                   null index]).
Proof.
  intros Hh Hge.
  rewrite !(run_callback_attached _ h) by done.
  cbn [calls_of notification_of]. unfold inserted_call, item_of, next_key.
  rewrite vector_at_beyond by done.
  case_decide; [done|lia].
Qed.

(** The queue holds callbacks only while a handler is attached. *)
Lemma queue_needs_handler_step w (step : HostStep) :
  (immediates w <> [] -> is_Some (_notificationHandler w)) ->
  immediates (run_step keySelector mapping step w) <> [] ->
  is_Some (_notificationHandler (run_step keySelector mapping step w)).
Proof.
  intros Hinv. destruct step as [vec' ev| |h0]; cbn [run_step].
  - destruct (_notificationHandler w) as [h|] eqn:Hh.
    + rewrite (host_mutation_attached _ h) by done. cbn. by rewrite Hh.
    + rewrite host_mutation_unattached by done. cbn. intros Hq.
      rewrite ?Hh. by apply Hinv.
  - destruct (tick_frame w) as (_ & -> & ->). intros Hq. apply Hinv.
    by destruct (immediates w).
  - by intros _.
Qed.

Lemma run_steps_snoc (steps : list HostStep) (step : HostStep) w :
  run_steps keySelector mapping (steps ++ [step]) w
  = run_step keySelector mapping step (run_steps keySelector mapping steps w).
Proof. unfold run_steps. by rewrite foldl_snoc. Qed.

Lemma queue_needs_handler_fresh (steps : list HostStep) (observableVector : list V) :
  immediates (run_steps keySelector mapping steps
                (ObservableVectorListDataAdapter (Handler := Handler) observableVector)) <> [] ->
  is_Some (_notificationHandler
             (run_steps keySelector mapping steps
                (ObservableVectorListDataAdapter (Handler := Handler) observableVector))).
Proof.
  induction steps as [|step steps IH] using rev_ind; [done|].
  rewrite run_steps_snoc. by apply queue_needs_handler_step.
Qed.

(** X11: whatever the owner does with a freshly constructed adapter
    (mutations, attachments and turns of the event loop in any order), a
    callback that is due finds a handler attached: it completes normally and
    never ends in a [TypeError]. *)
Theorem queued_callbacks_never_throw (steps : list HostStep)
    (observableVector : list V) (callback : Callback) (queue : list Callback) :
  immediates (run_steps keySelector mapping steps
                (ObservableVectorListDataAdapter (Handler := Handler) observableVector))
    = callback :: queue ->
  exists h : Handler,
    _notificationHandler
      (run_steps keySelector mapping steps
         (ObservableVectorListDataAdapter (Handler := Handler) observableVector)) = Some h
    /\ run_callback keySelector mapping callback
         (dequeue (run_steps keySelector mapping steps
                     (ObservableVectorListDataAdapter (Handler := Handler) observableVector)))
       = Normal tt
           (add_calls
              (dequeue (run_steps keySelector mapping steps
                          (ObservableVectorListDataAdapter (Handler := Handler) observableVector)))
              h
              (calls_of keySelector mapping
                 (_observableVector
                    (run_steps keySelector mapping steps
                       (ObservableVectorListDataAdapter (Handler := Handler) observableVector)))
                 callback)).
Proof.
  intros Hq.
  destruct (queue_needs_handler_fresh steps observableVector) as [h Hh].
  { by rewrite Hq. }
  exists h. split; [done|].
  by rewrite (run_callback_attached _ h).
Qed.

Lemma inserted_calls_linked vec :
  inserted_call keySelector mapping vec <$> seqZ 0 (Z.of_nat (length vec))
  = imap (linked_inserted keySelector mapping vec) vec.
Proof.
  apply list_eq. intros i. rewrite list_lookup_imap.
  destruct (vec !! i) as [x|] eqn:Hx.
  - rewrite (lookup_inserted_calls vec i x Hx). cbn. f_equal.
    pose proof (lookup_lt_Some _ _ _ Hx) as Hlt.
    unfold linked_inserted, previous_key, next_key. f_equal.
    + destruct i as [|j]; [by case_decide|].
      case_decide; [lia|].
      destruct (lookup_lt_is_Some_2 vec j) as [y Hy]; [lia|].
      rewrite Hy. cbn.
      replace (Z.of_nat (S j) - 1) with (Z.of_nat j) by lia.
      by rewrite (vector_at_lookup vec j y).
    + case_decide.
      * by rewrite lookup_ge_None_2 by lia.
      * destruct (lookup_lt_is_Some_2 vec (S i)) as [y Hy]; [lia|].
        rewrite Hy. cbn.
        replace (Z.of_nat i + 1) with (Z.of_nat (S i)) by lia.
        by rewrite (vector_at_lookup vec (S i) y).
  - apply lookup_ge_None_1 in Hx.
    rewrite list_lookup_fmap, lookup_seqZ_ge by lia. done.
Qed.

(** X12: the replay of a non-empty vector links its elements: between
    [beginNotifications] and [endNotifications] the element at position [i]
    is announced with its own pair, the key of the element before it ([null]
    for the first) and the key of the element after it ([null] for the
    last). *)
Theorem replay_links_neighbours w h :
  _notificationHandler w = Some h ->
  _observableVector w <> [] ->
  replay keySelector mapping w
  = Normal tt
      (add_calls w h
         (beginNotifications
          :: imap (linked_inserted keySelector mapping (_observableVector w))
                  (_observableVector w)
          ++ [endNotifications])).
Proof.
  intros Hh Hne. rewrite (replay_attached _ h) by done.
  destruct (_observableVector w) as [|x vec] eqn:Hvec; [done|].
  cbn [replay_calls]. by rewrite inserted_calls_linked.
Qed.

(** ** Invariants of the call log *)

Lemma count_begin_app (log1 log2 : list (Handler * HandlerCall V)) :
  count_begin (log1 ++ log2) = (count_begin log1 + count_begin log2)%nat.
Proof.
  induction log1 as [|[h c] log1 IH]; [done|].
  cbn. destruct c; cbn; by rewrite ?IH.
Qed.

Lemma count_end_app (log1 log2 : list (Handler * HandlerCall V)) :
  count_end (log1 ++ log2) = (count_end log1 + count_end log2)%nat.
Proof.
  induction log1 as [|[h c] log1 IH]; [done|].
  cbn. destruct c; cbn; by rewrite ?IH.
Qed.

Lemma count_inserted_calls h vec (l : list Z) :
  count_begin ((fun c => (h, c)) <$> (inserted_call keySelector mapping vec <$> l)) = 0%nat
  /\ count_end ((fun c => (h, c)) <$> (inserted_call keySelector mapping vec <$> l)) = 0%nat.
Proof. induction l as [|i l [IH1 IH2]]; [done|]. cbn. by split. Qed.

Lemma calls_of_balanced h vec (callback : Callback) :
  count_begin ((fun c => (h, c)) <$> calls_of keySelector mapping vec callback)
  = count_end ((fun c => (h, c)) <$> calls_of keySelector mapping vec callback).
Proof.
  destruct callback as [cc index|]; cbn [calls_of].
  - by destruct cc.
  - destruct vec as [|x vec]; [done|]. cbn [replay_calls].
    rewrite fmap_cons, fmap_app. cbn [count_begin count_end].
    rewrite count_begin_app, count_end_app.
    destruct (count_inserted_calls h (x :: vec)
                (seqZ 0 (Z.of_nat (length (x :: vec))))) as [-> ->].
    reflexivity.
Qed.

(** A step adds to the call log either nothing or the calls of one callback. *)
Lemma run_step_calls w (step : HostStep) :
  exists extra : list (Handler * HandlerCall V),
    calls (run_step keySelector mapping step w) = calls w ++ extra
    /\ count_begin extra = count_end extra.
Proof.
  destruct step as [vec' ev| |h0]; cbn [run_step].
  - exists []. rewrite app_nil_r. split; [|done].
    destruct (_notificationHandler w) as [h|] eqn:Hh.
    + by rewrite (host_mutation_attached _ h).
    + by rewrite host_mutation_unattached.
  - destruct (immediates w) as [|callback queue] eqn:Hq.
    + exists []. by rewrite tick_idle, app_nil_r.
    + destruct (_notificationHandler w) as [h|] eqn:Hh.
      * rewrite (tick_attached _ h callback queue) by done.
        eexists. split; [reflexivity|]. apply calls_of_balanced.
      * exists []. unfold tick. rewrite Hq, run_callback_unattached by done.
        by rewrite app_nil_r.
  - exists []. by rewrite app_nil_r.
Qed.

(** X13: notification batches are always closed: if the call log holds as
    many [endNotifications] as [beginNotifications] calls, it still does
    after any sequence of mutations, attachments and turns of the event loop;
    in particular it does in every run of a freshly constructed adapter. *)
Theorem notification_batches_are_closed (steps : list HostStep) w
    (observableVector : list V) :
  count_begin (calls w) = count_end (calls w) ->
  count_begin (calls (run_steps keySelector mapping steps w))
  = count_end (calls (run_steps keySelector mapping steps w))
  /\ count_begin (calls (run_steps keySelector mapping steps
                           (ObservableVectorListDataAdapter (Handler := Handler) observableVector)))
     = count_end (calls (run_steps keySelector mapping steps
                           (ObservableVectorListDataAdapter (Handler := Handler) observableVector))).
Proof.
  assert (Hkept : forall w0 : World V Handler,
    count_begin (calls w0) = count_end (calls w0) ->
    count_begin (calls (run_steps keySelector mapping steps w0))
    = count_end (calls (run_steps keySelector mapping steps w0))).
  { induction steps as [|step steps IH] using rev_ind; intros w0 Hw0; [done|].
    rewrite run_steps_snoc.
    destruct (run_step_calls (run_steps keySelector mapping steps w0) step)
      as (extra & -> & Hextra).
    rewrite count_begin_app, count_end_app, Hextra. f_equal. by apply IH. }
  intros Hw. split; [by apply Hkept|]. by apply Hkept.
Qed.

(** X14: the replay addresses the handler attached when it runs: when a
    second handler is attached before the event loop takes a turn, both
    pending replays go to the second handler, which sees the contents twice,
    and the first handler is never called. *)
Theorem reattaching_repeats_the_replay w (h1 h2 : Handler) :
  immediates w = [] ->
  ticks keySelector mapping 2
    (run_steps keySelector mapping [HostAttach h1; HostAttach h2] w)
  = {| _observableVector := _observableVector w;
       _notificationHandler := Some h2;
       immediates := [];
       calls := calls w
                ++ ((fun c => (h2, c))
                      <$> (replay_calls keySelector mapping (_observableVector w)
                           ++ replay_calls keySelector mapping (_observableVector w))) |}.
Proof.
  intros Hidle. cbn [run_steps foldl run_step].
  rewrite !setNotificationHandler_eq. cbn [world_of _observableVector immediates calls].
  rewrite Hidle. cbn [app].
  rewrite (ticks_attached [replayExistingItems; replayExistingItems] _ h2 [])
    by done.
  cbn [_observableVector _notificationHandler calls calls_of fmap list_fmap concat].
  by rewrite app_nil_r.
Qed.

Lemma run_steps_mutations_unattached (ms : list (list V * IVectorChangedEventArgs)) :
  forall w,
    _notificationHandler w = None ->
    _notificationHandler (run_steps keySelector mapping (mutations ms) w) = None
    /\ calls (run_steps keySelector mapping (mutations ms) w) = calls w
    /\ immediates (run_steps keySelector mapping (mutations ms) w) = immediates w.
Proof.
  induction ms as [|[vec' ev] ms IH]; intros w Hh; [done|].
  cbn [mutations fmap list_fmap run_steps foldl run_step fst snd].
  rewrite host_mutation_unattached by done. cbn [world_of].
  destruct (IH (set_vector vec' w) Hh) as (IH1 & IH2 & IH3).
  unfold run_steps, mutations in *. by rewrite IH1, IH2, IH3.
Qed.

(** X15: however many changes the vector went through while no handler was
    attached, a handler attached afterwards receives, on the next turn of the
    event loop, the replay of the contents as they are then and nothing
    else; nothing stays queued. *)
Theorem late_attachment_sees_only_the_replay w h
    (ms : list (list V * IVectorChangedEventArgs)) :
  _notificationHandler w = None ->
  immediates w = [] ->
  run_steps keySelector mapping (mutations ms ++ [HostAttach h; HostTick]) w
  = {| _observableVector :=
         _observableVector (run_steps keySelector mapping (mutations ms) w);
       _notificationHandler := Some h;
       immediates := [];
       calls := calls w
                ++ ((fun c => (h, c))
                      <$> replay_calls keySelector mapping
                            (_observableVector
                               (run_steps keySelector mapping (mutations ms) w))) |}.
Proof.
  intros Hh Hidle.
  destruct (run_steps_mutations_unattached ms w Hh) as (_ & Hcalls & Hq).
  unfold run_steps in *. rewrite foldl_app. cbn [foldl run_step].
  rewrite setNotificationHandler_eq. cbn [world_of].
  rewrite Hq, Hidle, Hcalls. cbn [app].
  by rewrite (tick_attached _ h replayExistingItems []).
Qed.

(** X16: a change made after a handler was attached but before its replay
    ran is announced twice: the replay already shows the changed contents,
    and the translation of the change event follows on the next turn. *)
Theorem change_before_the_replay_is_announced_twice w h vec'
    (ev : IVectorChangedEventArgs) :
  immediates w = [] ->
  ticks keySelector mapping 2
    (run_steps keySelector mapping [HostAttach h; HostMutation vec' ev] w)
  = {| _observableVector := vec';
       _notificationHandler := Some h;
       immediates := [];
       calls := calls w
                ++ ((fun c => (h, c))
                      <$> (replay_calls keySelector mapping vec'
                           ++ [notification_of keySelector mapping vec'
                                 (collectionChange ev) (index ev)])) |}.
Proof.
  intros Hidle. cbn [run_steps foldl run_step].
  rewrite setNotificationHandler_eq. cbn [world_of].
  rewrite (host_mutation_attached _ h) by done.
  cbn [world_of _observableVector _notificationHandler immediates calls].
  rewrite Hidle. cbn [app].
  rewrite (ticks_attached [replayExistingItems; callback_of ev] _ h []) by done.
  cbn [_observableVector _notificationHandler calls calls_of callback_of
       fmap list_fmap concat].
  by rewrite app_nil_r.
Qed.

End AdapterProperties.

(** * The optional mapping *)

Section MappingProperties.

Context {V : Type} `{JsValues V} {Handler : Type}.
Variable keySelector : V -> V.

(** X7: for an in-bounds index and non-negative counts: without a mapping
    the data of the fetched items are the elements of the vector themselves;
    with a mapping [f] they are the images of the elements under [f]; the
    keys are the images under the key selector in both cases. *)
Theorem itemsFromIndex_data_and_keys (w : World V Handler) (index countBefore countAfter : Z)
    (f : V -> V) :
  0 <= index < Z.of_nat (length (_observableVector w)) ->
  0 <= countBefore ->
  0 <= countAfter ->
  exists rdefault rmapped : IFetchResult V,
    itemsFromIndex keySelector None index countBefore countAfter w
      = Normal (Fulfilled rdefault) w
    /\ itemsFromIndex keySelector (Some f) index countBefore countAfter w
       = Normal (Fulfilled rmapped) w
    /\ data <$> items rdefault
       = vector_slice (_observableVector w)
           (Z.max (index - countBefore) 0)
           (Z.min (index + countAfter)
                  (Z.of_nat (length (_observableVector w)) - 1))
    /\ data <$> items rmapped = f <$> (data <$> items rdefault)
    /\ key <$> items rdefault = keySelector <$> (data <$> items rdefault)
    /\ key <$> items rmapped = key <$> items rdefault.
Proof.
  intros Hidx Hcb Hca.
  destruct (itemsFromIndex_slice keySelector None w index
              countBefore countAfter) as (r1 & Hr1 & Hi1); [lia..|].
  destruct (itemsFromIndex_slice keySelector (Some f) w index
              countBefore countAfter) as (r2 & Hr2 & Hi2); [lia..|].
  exists r1, r2. split; [done|]. split; [done|].
  rewrite Hi1, Hi2, <- !list_fmap_compose.
  repeat split; try reflexivity.
  by rewrite list_fmap_id.
Qed.

End MappingProperties.

(** * Properties of the flyout component *)

Section FlyoutProperties.

Import Flyout.

Context {Anchor : Type}.

Implicit Types (c : Component Anchor) (opts : Options Anchor).

Lemma set_anchors_anchor (l : list Anchor) c :
  anchor (foldl (fun c a => set_anchor a c) c l)
  = match last l with
    | Some a => Some a
    | None => anchor c
    end.
Proof.
  destruct l as [|a l _] using rev_ind; [done|].
  by rewrite foldl_snoc, last_snoc.
Qed.

Lemma set_anchors_winControl (l : list Anchor) c :
  winControl (foldl (fun c a => set_anchor a c) c l) = winControl c.
Proof. revert c. induction l as [|a l IH]; intros c; [done|]. cbn. by rewrite IH. Qed.

Lemma processed_component_show_calls opts (before after : list Anchor) :
  show_calls (winControl (processed_component opts before after)) = [].
Proof.
  unfold processed_component. rewrite set_anchors_winControl. cbn.
  by rewrite set_anchors_winControl.
Qed.

Lemma processed_component_anchor opts (before after : list Anchor) :
  anchor (processed_component opts before after)
  = match last (before ++ after) with
    | Some a => Some a
    | None => opt_anchor opts
    end.
Proof.
  unfold processed_component. rewrite set_anchors_anchor. cbn [process anchor].
  rewrite set_anchors_anchor. cbn [construct anchor].
  destruct after as [|a after _] using rev_ind.
  - by rewrite app_nil_r.
  - by rewrite app_assoc, !last_snoc.
Qed.

(** C8: on a component that has been constructed and processed, [show()]
    with no anchor option, no assignment to [anchor] and no argument ends as
    a rejected asynchronous result and the native control's [show] is not
    called; with an anchor from any of the three sources, [show] resolves and
    the control's [show] is called once with the argument; in no case does
    [show] throw synchronously. *)
Theorem show_needs_an_established_anchor opts (before after : list Anchor)
    (anchorArg : option Anchor) :
  (opt_anchor opts = None -> before = [] -> after = [] -> anchorArg = None ->
   show anchorArg (processed_component opts before after)
     = (RejectedWith NoAnchorEstablished, processed_component opts before after)
   /\ show_calls (winControl (processed_component opts before after)) = [])
  /\ (is_Some (opt_anchor opts) \/ before <> [] \/ after <> [] \/ is_Some anchorArg ->
      (show anchorArg (processed_component opts before after)).1 = Resolved
      /\ show_calls
           (winControl (show anchorArg (processed_component opts before after)).2)
         = [anchorArg])
  /\ (forall e, (show anchorArg (processed_component opts before after)).1
                <> ThrownSynchronously e).
Proof.
  pose proof (processed_component_anchor opts before after) as Hanchor.
  pose proof (processed_component_show_calls opts before after) as Hcalls.
  set (c := processed_component opts before after) in *.
  split; [|split].
  - intros Hopt -> -> ->. split; [|exact Hcalls].
    unfold show, anchor_established. rewrite Hanchor. cbn [app last].
    by rewrite Hopt.
  - intros Hest.
    assert (Hb : anchor_established anchorArg c = true).
    { unfold anchor_established. destruct anchorArg as [a|]; [done|].
      rewrite Hanchor.
      destruct (last (before ++ after)) as [a|] eqn:Hlast; [done|].
      apply last_None in Hlast. apply app_eq_nil in Hlast as [-> ->].
      destruct Hest as [[a ->]|[?|[?|[a ?]]]]; done. }
    unfold show. rewrite Hb. cbn. by rewrite Hcalls.
  - intros e. unfold show. by destruct (anchor_established anchorArg c).
Qed.

End FlyoutProperties.

(** * Concrete runs *)

(** C2: the guard misses the lower bound.  [itemsFromIndex(-1, 0, 0)] on a
    vector of three elements is out of bounds, yet it is not rejected with
    the "does not exist" error: it is fulfilled, with a fetch result that
    holds no item and whose offset, [-1], lies outside its own window.  So it
    is not true that every out-of-bounds index is rejected. *)
Lemma itemsFromIndex_negative_index_fulfilled :
  -1 < 0
  /\ itemsFromIndex example_keySelector None (-1) 0 0 example_world
     = Normal (Fulfilled {| absoluteIndex := -1;
                            atEnd := false;
                            atStart := true;
                            items := [];
                            offset := -1;
                            totalCount := 3 |}) example_world
  /\ itemsFromIndex example_keySelector None (-1) 0 0 example_world
     <> Normal (Rejected (ErrorFromName doesNotExist)) example_world
  /\ ~ (forall (w : World JsVal nat) (index countBefore countAfter : Z),
          index < 0 \/ Z.of_nat (length (_observableVector w)) <= index ->
          itemsFromIndex example_keySelector None index countBefore countAfter w
          = Normal (Rejected (ErrorFromName doesNotExist)) w).
Proof.
  split; [lia|]. split; [reflexivity|]. split; [discriminate|].
  intros Hall. specialize (Hall example_world (-1) 0 0 (or_introl eq_refl)).
  discriminate Hall.
Qed.

(** The adapter reaches the negative index by itself: on an empty vector
    [itemsFromEnd(1)] calls [itemsFromIndex(-1, 0, 0)] and is fulfilled, where
    [itemsFromStart(1)] is rejected. *)
Example itemsFromEnd_on_empty_vector :
  itemsFromEnd example_keySelector None 1
    (ObservableVectorListDataAdapter [] : World JsVal nat)
  = Normal (Fulfilled {| absoluteIndex := -1;
                         atEnd := true;
                         atStart := true;
                         items := [];
                         offset := -1;
                         totalCount := 0 |})
           (ObservableVectorListDataAdapter [])
  /\ itemsFromStart example_keySelector None 1
       (ObservableVectorListDataAdapter [] : World JsVal nat)
     = Normal (Rejected (ErrorFromName doesNotExist))
              (ObservableVectorListDataAdapter []).
Proof. split; reflexivity. Qed.

(** When a second handler is attached before the event loop takes a turn,
    both replays address the handler attached last. *)
Example two_attachments_replay_to_the_latest :
  calls (run_steps example_keySelector None
           [HostAttach 1%nat; HostAttach 2%nat; HostTick; HostTick]
           (ObservableVectorListDataAdapter [JsNumber 5]))
  = [(2%nat, beginNotifications);
     (2%nat, inserted {| data := JsNumber 5; key := JsNumber 105 |} JsNull JsNull 0);
     (2%nat, endNotifications);
     (2%nat, beginNotifications);
     (2%nat, inserted {| data := JsNumber 5; key := JsNumber 105 |} JsNull JsNull 0);
     (2%nat, endNotifications)].
Proof. reflexivity. Qed.

(** A callback that finds the vector shorter than when it was queued reads
    [undefined] at its index. *)
Example insertion_undone_before_the_turn :
  calls (run_steps example_keySelector None
           [HostMutation example_vector_inserted
              {| collectionChange := itemInserted; index := 3 |};
            HostMutation example_vector
              {| collectionChange := itemRemoved; index := 3 |};
            HostTick; HostTick]
           example_world)
  = [(7%nat, inserted {| data := JsUndefined; key := JsUndefined |}
                      (JsNumber 103) JsNull 3);
     (7%nat, removed JsNull 3)].
Proof. reflexivity. Qed.

Lemma itemsFromIndex_in_bounds_witness :
  0 <= 1 < Z.of_nat (length (_observableVector example_world))
  /\ exists (r : IFetchResult JsVal),
       itemsFromIndex example_keySelector None 1 1 5 example_world
       = Normal (Fulfilled r) example_world
       /\ offset r = 1
       /\ items r !! Z.to_nat (offset r)
          = Some {| data := JsNumber 2; key := JsNumber 102 |}.
Proof.
  split; [cbn; lia|].
  destruct (itemsFromIndex_in_bounds example_keySelector None example_world 1 1 5)
    as (r & element & Hr & _ & _ & _ & Hoff & _ & _ & _ & Hel & Hitem & _);
    [cbn; lia | lia | lia |].
  exists r. split; [exact Hr|]. split; [exact Hoff|].
  rewrite Hitem. injection Hel as <-. reflexivity.
Defined.

Lemma itemsFromStart_itemsFromEnd_windows_witness :
  example_vector <> [] /\ 1 <= 2
  /\ itemsFromStart example_keySelector None 2 example_world
     = Normal (Fulfilled (first_items_window example_keySelector None example_vector 2))
              example_world
  /\ itemsFromEnd example_keySelector None 2 example_world
     = Normal (Fulfilled (last_items_window example_keySelector None example_vector 2))
              example_world.
Proof.
  split; [discriminate|]. split; [lia|].
  apply (itemsFromStart_itemsFromEnd_windows example_keySelector None example_world 2);
    [discriminate | lia].
Defined.

Lemma setNotificationHandler_replays_once_witness :
  count_ticks (V := JsVal) (Handler := nat) [] = length (immediates example_fresh_world)
  /\ calls (tick example_keySelector None
              (world_of (setNotificationHandler 7%nat example_fresh_world)))
     = [(7%nat, beginNotifications);
        (7%nat, inserted {| data := JsNumber 1; key := JsNumber 101 |}
                         JsNull (JsNumber 102) 0);
        (7%nat, inserted {| data := JsNumber 2; key := JsNumber 102 |}
                         (JsNumber 101) (JsNumber 103) 1);
        (7%nat, inserted {| data := JsNumber 3; key := JsNumber 103 |}
                         (JsNumber 102) JsNull 2);
        (7%nat, endNotifications)].
Proof.
  split; [reflexivity|].
  pose proof (setNotificationHandler_replays_once example_keySelector None
                example_fresh_world 7%nat [] eq_refl) as [_ Hlater].
  cbv zeta in Hlater. unfold run_steps in Hlater. cbn [foldl] in Hlater.
  destruct Hlater as (h' & Hh' & Hsame & _ & _ & Hcalls & _).
  destruct (Hsame (Forall_nil_2 _)) as [-> _].
  rewrite Hcalls by discriminate. reflexivity.
Defined.

Lemma itemInserted_yields_one_inserted_witness :
  _notificationHandler example_world = Some 7%nat
  /\ count_ticks (V := JsVal) (Handler := nat) [] = length (immediates example_world)
  /\ calls (tick example_keySelector None
              (world_of (host_mutation example_vector_inserted
                           {| collectionChange := itemInserted; index := 1 |}
                           example_world)))
     = [(7%nat, inserted {| data := JsNumber 9; key := JsNumber 109 |}
                         (JsNumber 101) (JsNumber 102) 1)].
Proof.
  split; [reflexivity|]. split; [reflexivity|].
  pose proof (itemInserted_yields_one_inserted example_keySelector None
                example_world 7%nat example_vector_inserted 1 []
                eq_refl eq_refl) as [_ Hlater].
  cbv zeta in Hlater. unfold run_steps in Hlater. cbn [foldl] in Hlater.
  destruct Hlater as (_ & h' & item & previousKey & nextKey & _ & Hsame & Htick
                      & -> & _ & Hprev & _ & Hnext).
  rewrite Htick, (Hsame (Forall_nil_2 _)), Hprev, Hnext by (cbn; lia).
  reflexivity.
Defined.

Lemma itemRemoved_yields_one_removed_witness :
  _notificationHandler example_world = Some 7%nat
  /\ count_ticks (V := JsVal) (Handler := nat) [] = length (immediates example_world)
  /\ calls (tick example_keySelector None
              (world_of (host_mutation example_vector_removed
                           {| collectionChange := itemRemoved; index := 1 |}
                           example_world)))
     = [(7%nat, removed JsNull 1)].
Proof.
  split; [reflexivity|]. split; [reflexivity|].
  pose proof (itemRemoved_yields_one_removed example_keySelector None
                example_world 7%nat example_vector_removed 1 []
                eq_refl eq_refl) as [_ Hlater].
  cbv zeta in Hlater. unfold run_steps in Hlater. cbn [foldl] in Hlater.
  destruct Hlater as (h' & _ & Hsame & Htick).
  rewrite Htick, (Hsame (Forall_nil_2 _)). reflexivity.
Defined.

Lemma every_event_yields_one_deferred_call_witness :
  _notificationHandler example_world = Some 7%nat
  /\ count_ticks (V := JsVal) (Handler := nat) [] = length (immediates example_world)
  /\ calls (ticks example_keySelector None 2
              (run_steps example_keySelector None
                 (mutations
                    [(example_vector_inserted,
                      {| collectionChange := itemInserted; index := 1 |});
                     (example_vector,
                      {| collectionChange := itemRemoved; index := 1 |})])
                 example_world))
     = [(7%nat, inserted {| data := JsNumber 2; key := JsNumber 102 |}
                         (JsNumber 101) (JsNumber 103) 1);
        (7%nat, removed JsNull 1)].
Proof.
  split; [reflexivity|]. split; [reflexivity|].
  pose proof (every_event_yields_one_deferred_call example_keySelector None
                example_world 7%nat example_vector
                {| collectionChange := reset; index := 0 |} []
                [(example_vector_inserted,
                  {| collectionChange := itemInserted; index := 1 |});
                 (example_vector,
                  {| collectionChange := itemRemoved; index := 1 |})]
                eq_refl eq_refl) as (_ & _ & Hmany).
  cbv zeta in Hmany. destruct Hmany as (_ & _ & Hidle).
  destruct (Hidle eq_refl) as [_ Hcalls].
  exact Hcalls.
Defined.

Lemma event_without_handler_is_dropped_witness :
  _notificationHandler example_fresh_world = None
  /\ world_of (host_mutation example_vector_inserted
                 {| collectionChange := itemInserted; index := 1 |}
                 example_fresh_world)
     = {| _observableVector := example_vector_inserted;
          _notificationHandler := None;
          immediates := [];
          calls := [] |}.
Proof.
  split; [reflexivity|].
  pose proof (event_without_handler_is_dropped example_keySelector None
                example_fresh_world example_vector_inserted
                {| collectionChange := itemInserted; index := 1 |} [] 7%nat
                eq_refl) as (_ & Hdropped & _).
  rewrite Hdropped. reflexivity.
Defined.

Lemma show_needs_an_established_anchor_witness :
  Flyout.show None
    (Flyout.processed_component
       {| Flyout.opt_anchor := @None nat;
          Flyout.opt_placement := None;
          Flyout.opt_alignment := None |} [] [])
  = (Flyout.RejectedWith Flyout.NoAnchorEstablished,
     Flyout.processed_component
       {| Flyout.opt_anchor := @None nat;
          Flyout.opt_placement := None;
          Flyout.opt_alignment := None |} [] [])
  /\ Flyout.show_calls
       (Flyout.winControl
          (Flyout.show (Some 4%nat)
             (Flyout.processed_component
                {| Flyout.opt_anchor := @None nat;
                   Flyout.opt_placement := None;
                   Flyout.opt_alignment := None |} [] [])).2)
     = [Some 4%nat].
Proof.
  split.
  - apply (show_needs_an_established_anchor
             {| Flyout.opt_anchor := @None nat;
                Flyout.opt_placement := None;
                Flyout.opt_alignment := None |} [] [] None); reflexivity.
  - apply (show_needs_an_established_anchor
             {| Flyout.opt_anchor := @None nat;
                Flyout.opt_placement := None;
                Flyout.opt_alignment := None |} [] [] (Some 4%nat)).
    right. right. right. by eexists.
Defined.

(** ** Concrete runs of the further properties *)

Lemma itemsFromIndex_items_are_a_slice_witness :
  -1 < Z.of_nat (length (_observableVector example_world))
  /\ Z.max (-1 - -2) 0
     <= Z.min (-1 + 5) (Z.of_nat (length (_observableVector example_world)) - 1) + 1
  /\ exists r : IFetchResult JsVal,
       itemsFromIndex example_keySelector None (-1) (-2) 5 example_world
       = Normal (Fulfilled r) example_world
       /\ items r = [{| data := JsNumber 2; key := JsNumber 102 |};
                     {| data := JsNumber 3; key := JsNumber 103 |}].
Proof.
  split; [cbn; lia|]. split; [cbn; lia|].
  destruct (itemsFromIndex_items_are_a_slice example_keySelector None
              example_world (-1) (-2) 5) as (r & Hr & Hitems & _);
    [cbn; lia | cbn; lia |].
  exists r. split; [exact Hr|]. rewrite Hitems. reflexivity.
Defined.

Lemma itemsFromIndex_window_size_witness :
  0 <= 1 < Z.of_nat (length (_observableVector example_world))
  /\ exists r : IFetchResult JsVal,
       itemsFromIndex example_keySelector None 1 0 1 example_world
       = Normal (Fulfilled r) example_world
       /\ Z.of_nat (length (items r)) = 2
       /\ offset r = 0.
Proof.
  split; [cbn; lia|].
  destruct (itemsFromIndex_window_size example_keySelector None
              example_world 1 0 1) as (r & Hr & _ & _ & _ & Hexact);
    [cbn; lia | lia | lia |].
  exists r. split; [exact Hr|]. apply Hexact; cbn; lia.
Defined.

Lemma itemsFromIndex_adjacent_windows_witness :
  0 + 0 + 1 < Z.of_nat (length (_observableVector example_world))
  /\ exists r1 r2 r12 : IFetchResult JsVal,
       itemsFromIndex example_keySelector None 0 0 0 example_world
       = Normal (Fulfilled r1) example_world
       /\ itemsFromIndex example_keySelector None 1 0 0 example_world
          = Normal (Fulfilled r2) example_world
       /\ itemsFromIndex example_keySelector None 0 0 1 example_world
          = Normal (Fulfilled r12) example_world
       /\ items r1 ++ items r2 = items r12.
Proof.
  split; [cbn; lia|].
  destruct (itemsFromIndex_adjacent_windows example_keySelector None
              example_world 0 0 0) as (r1 & r2 & r12 & H1 & H2 & H12 & Happ & _);
    [lia | lia | lia | cbn; lia |].
  exists r1, r2, r12. split; [exact H1|]. split; [exact H2|].
  split; [exact H12|exact Happ].
Defined.

Lemma itemsFromIndex_both_flags_iff_whole_vector_witness :
  0 <= 1 < Z.of_nat (length (_observableVector example_world))
  /\ exists r : IFetchResult JsVal,
       itemsFromIndex example_keySelector None 1 1 1 example_world
       = Normal (Fulfilled r) example_world
       /\ (atStart r = true /\ atEnd r = true
           <-> items r = item_of example_keySelector None <$> example_vector).
Proof.
  split; [cbn; lia|].
  apply (itemsFromIndex_both_flags_iff_whole_vector example_keySelector None
           example_world 1 1 1); [cbn; lia | lia | lia].
Defined.

Lemma itemsFromIndex_keys_distinct_witness :
  NoDup (example_keySelector <$> _observableVector example_world)
  /\ exists r : IFetchResult JsVal,
       itemsFromIndex example_keySelector None 1 1 1 example_world
       = Normal (Fulfilled r) example_world
       /\ NoDup (key <$> items r).
Proof.
  assert (Hkeys : NoDup (example_keySelector <$> _observableVector example_world)).
  { cbn. rewrite !NoDup_cons, !not_elem_of_cons, !elem_of_nil.
    repeat apply conj; try discriminate; try tauto. constructor. }
  split; [exact Hkeys|].
  apply (itemsFromIndex_keys_distinct example_keySelector None example_world 1 1 1);
    [exact Hkeys | cbn; lia | lia | lia].
Defined.

Lemma itemsFromIndex_data_and_keys_witness :
  0 <= 1 < Z.of_nat (length (_observableVector example_world))
  /\ exists rdefault rmapped : IFetchResult JsVal,
       itemsFromIndex example_keySelector None 1 0 1 example_world
       = Normal (Fulfilled rdefault) example_world
       /\ itemsFromIndex example_keySelector (Some example_keySelector) 1 0 1
            example_world
          = Normal (Fulfilled rmapped) example_world
       /\ data <$> items rdefault = [JsNumber 2; JsNumber 3]
       /\ data <$> items rmapped = [JsNumber 102; JsNumber 103].
Proof.
  split; [cbn; lia|].
  destruct (itemsFromIndex_data_and_keys example_keySelector example_world
              1 0 1 example_keySelector)
    as (r1 & r2 & H1 & H2 & Hd1 & Hd2 & _); [cbn; lia | lia | lia |].
  exists r1, r2. split; [exact H1|]. split; [exact H2|].
  rewrite Hd2, Hd1. split; reflexivity.
Defined.

Lemma fetches_on_empty_vector_witness :
  _observableVector (ObservableVectorListDataAdapter [] : World JsVal nat) = []
  /\ itemsFromStart example_keySelector None 3
       (ObservableVectorListDataAdapter [] : World JsVal nat)
     = Normal (Rejected (ErrorFromName doesNotExist))
              (ObservableVectorListDataAdapter [])
  /\ exists r : IFetchResult JsVal,
       itemsFromEnd example_keySelector None 3
         (ObservableVectorListDataAdapter [] : World JsVal nat)
       = Normal (Fulfilled r) (ObservableVectorListDataAdapter [])
       /\ items r = [].
Proof.
  split; [reflexivity|].
  destruct (fetches_on_empty_vector example_keySelector None
              (ObservableVectorListDataAdapter [] : World JsVal nat) 0 0 0 3 eq_refl)
    as (_ & _ & Hstart & Hfulfilled).
  destruct Hfulfilled as (r & Hend & Hitems & _); [lia|].
  split; [exact Hstart|]. exists r. split; [exact Hend|exact Hitems].
Defined.

Lemma zero_count_gives_empty_window_witness :
  _observableVector example_world <> []
  /\ exists rs re : IFetchResult JsVal,
       itemsFromStart example_keySelector None 0 example_world
       = Normal (Fulfilled rs) example_world
       /\ items rs = []
       /\ itemsFromEnd example_keySelector None 0 example_world
          = Normal (Fulfilled re) example_world
       /\ items re = []
       /\ offset re = -1.
Proof.
  split; [discriminate|].
  destruct (zero_count_gives_empty_window example_keySelector None
              example_world)
    as (rs & re & Hs & His & _ & _ & _ & _ & He & Hie & _ & Hoff & _);
    [discriminate |].
  exists rs, re. split; [exact Hs|]. split; [exact His|]. split; [exact He|].
  split; [exact Hie|exact Hoff].
Defined.

Lemma notification_for_a_vanished_position_witness :
  _notificationHandler example_world = Some 7%nat
  /\ Z.of_nat (length (_observableVector example_world)) <= 3
  /\ calls (world_of (run_callback example_keySelector None
                        (makeCollectionChangeHandler itemInserted 3) example_world))
     = [(7%nat, inserted {| data := JsUndefined; key := JsUndefined |}
                         (JsNumber 103) JsNull 3)].
Proof.
  split; [reflexivity|]. split; [cbn; lia|].
  destruct (notification_for_a_vanished_position example_keySelector None
              example_world 7%nat 3 eq_refl) as [_ Hinserted]; [cbn; lia|].
  rewrite Hinserted. reflexivity.
Defined.

Lemma queued_callbacks_never_throw_witness :
  immediates (run_steps example_keySelector None
                [HostMutation example_vector_inserted
                   {| collectionChange := itemInserted; index := 1 |};
                 HostAttach 7%nat;
                 HostMutation example_vector
                   {| collectionChange := itemRemoved; index := 1 |}]
                (ObservableVectorListDataAdapter example_vector))
  = [replayExistingItems; makeCollectionChangeHandler itemRemoved 1]
  /\ exists (h : nat) (w' : World JsVal nat),
       run_callback example_keySelector None replayExistingItems
         (dequeue (run_steps example_keySelector None
                     [HostMutation example_vector_inserted
                        {| collectionChange := itemInserted; index := 1 |};
                      HostAttach 7%nat;
                      HostMutation example_vector
                        {| collectionChange := itemRemoved; index := 1 |}]
                     (ObservableVectorListDataAdapter example_vector)))
       = Normal tt w'.
Proof.
  split; [reflexivity|].
  destruct (queued_callbacks_never_throw example_keySelector None
              [HostMutation example_vector_inserted
                 {| collectionChange := itemInserted; index := 1 |};
               HostAttach 7%nat;
               HostMutation example_vector
                 {| collectionChange := itemRemoved; index := 1 |}]
              example_vector replayExistingItems
              [makeCollectionChangeHandler itemRemoved 1] eq_refl)
    as (h & _ & Hrun).
  exists h. eexists. exact Hrun.
Defined.

Lemma replay_links_neighbours_witness :
  _notificationHandler example_world = Some 7%nat
  /\ _observableVector example_world <> []
  /\ calls (world_of (replay example_keySelector None example_world))
     = [(7%nat, beginNotifications);
        (7%nat, inserted {| data := JsNumber 1; key := JsNumber 101 |}
                         JsNull (JsNumber 102) 0);
        (7%nat, inserted {| data := JsNumber 2; key := JsNumber 102 |}
                         (JsNumber 101) (JsNumber 103) 1);
        (7%nat, inserted {| data := JsNumber 3; key := JsNumber 103 |}
                         (JsNumber 102) JsNull 2);
        (7%nat, endNotifications)].
Proof.
  split; [reflexivity|]. split; [discriminate|].
  rewrite (replay_links_neighbours example_keySelector None example_world 7%nat
             eq_refl); [reflexivity|discriminate].
Defined.

Lemma notification_batches_are_closed_witness :
  count_begin (calls example_world) = count_end (calls example_world)
  /\ count_begin (calls (run_steps example_keySelector None
                           [HostAttach 3%nat; HostTick] example_world))
     = count_end (calls (run_steps example_keySelector None
                           [HostAttach 3%nat; HostTick] example_world)).
Proof.
  split; [reflexivity|].
  apply (notification_batches_are_closed example_keySelector None
           [HostAttach 3%nat; HostTick] example_world [] eq_refl).
Defined.

Lemma reattaching_repeats_the_replay_witness :
  immediates example_fresh_world = []
  /\ calls (ticks example_keySelector None 2
              (run_steps example_keySelector None
                 [HostAttach 1%nat; HostAttach 2%nat] example_fresh_world))
     = (fun c => (2%nat, c))
       <$> (replay_calls example_keySelector None example_vector
            ++ replay_calls example_keySelector None example_vector).
Proof.
  split; [reflexivity|].
  rewrite (reattaching_repeats_the_replay example_keySelector None
             example_fresh_world 1%nat 2%nat eq_refl).
  reflexivity.
Defined.

Lemma late_attachment_sees_only_the_replay_witness :
  _notificationHandler example_fresh_world = None
  /\ immediates example_fresh_world = []
  /\ calls (run_steps example_keySelector None
              (mutations [(example_vector_removed,
                           {| collectionChange := itemRemoved; index := 1 |})]
               ++ [HostAttach 7%nat; HostTick])
              example_fresh_world)
     = [(7%nat, beginNotifications);
        (7%nat, inserted {| data := JsNumber 1; key := JsNumber 101 |}
                         JsNull (JsNumber 103) 0);
        (7%nat, inserted {| data := JsNumber 3; key := JsNumber 103 |}
                         (JsNumber 101) JsNull 1);
        (7%nat, endNotifications)].
Proof.
  split; [reflexivity|]. split; [reflexivity|].
  rewrite (late_attachment_sees_only_the_replay example_keySelector None
             example_fresh_world 7%nat
             [(example_vector_removed,
               {| collectionChange := itemRemoved; index := 1 |})]
             eq_refl eq_refl).
  reflexivity.
Defined.

Lemma change_before_the_replay_is_announced_twice_witness :
  immediates example_fresh_world = []
  /\ calls (ticks example_keySelector None 2
              (run_steps example_keySelector None
                 [HostAttach 7%nat;
                  HostMutation [JsNumber 1]
                    {| collectionChange := reset; index := 0 |}]
                 example_fresh_world))
     = [(7%nat, beginNotifications);
        (7%nat, inserted {| data := JsNumber 1; key := JsNumber 101 |}
                         JsNull JsNull 0);
        (7%nat, endNotifications);
        (7%nat, reload)].
Proof.
  split; [reflexivity|].
  rewrite (change_before_the_replay_is_announced_twice example_keySelector None
             example_fresh_world 7%nat [JsNumber 1]
             {| collectionChange := reset; index := 0 |} eq_refl).
  reflexivity.
Defined.
